(** * mcp-nexus worker: secret codec, token helpers and admin CORS gate

    A shallow embedding of the worker's crypto utilities
    ([crypto.ts]: [encrypt], [decrypt], [decodeAes256KeyBytes],
    [generateToken], [maskApiKey]) and of the admin-API CORS origin
    callback of [app.ts], together with the properties the
    specification states about them.

    JavaScript strings are sequences of UTF-16 code units; byte arrays
    ([Uint8Array]) are sequences of octets.  Both are lists of [Z].
    A promise that rejects and a function that throws are a [Throw]. *)

From Stdlib Require Import String Ascii DecimalString.
From Stdlib Require Import ZArith List Lia ZifyNat Bool.
Import ListNotations.
Open Scope Z_scope.

(* ================================================================= *)
(** * Part I: the model *)
(* ================================================================= *)

(** ** Strings, bytes and thrown errors *)

Definition jsstring := list Z.
Definition bytes := list Z.

(** A string literal of the source, as its code units. *)
Definition js (s : string) : jsstring :=
  map (fun a => Z.of_N (N_of_ascii a)) (list_ascii_of_string s).

Definition is_code_unit (c : Z) : Prop := 0 <= c < 65536.
Definition is_byte (b : Z) : Prop := 0 <= b < 256.

Definition jsstring_eqb (a b : jsstring) : bool :=
  if list_eq_dec Z.eq_dec a b then true else false.

(** [n.toString()] of a length. *)
Definition nat_toString (n : nat) : jsstring :=
  js (NilEmpty.string_of_uint (Nat.to_uint n)).

(** What the module and the platform throw. *)
Inductive exn : Type :=
| Error (message : jsstring)      (* [throw new Error(message)] *)
| InvalidCharacterError           (* [atob] on malformed input *)
| OperationError                  (* [crypto.subtle.decrypt] *)
| QuotaExceededError.             (* [crypto.getRandomValues] *)

Inductive result (A : Type) : Type :=
| Ok (a : A)
| Throw (e : exn).
Arguments Ok {A} a.
Arguments Throw {A} e.

Definition is_ok {A} (r : result A) : bool :=
  match r with Ok _ => true | Throw _ => false end.

(** ** [String.prototype] helpers used by the module *)

Definition DQUOTE : Z := 34.
Definition SQUOTE : Z := 39.
Definition STAR : Z := 42.

(** ECMAScript WhiteSpace and LineTerminator code units: what [trim]
    removes and what the regular expression class [\s] matches. *)
Definition is_space (c : Z) : bool :=
  (9 <=? c) && (c <=? 13)
  || (c =? 32) || (c =? 160) || (c =? 5760)
  || (8192 <=? c) && (c <=? 8202)
  || (c =? 8232) || (c =? 8233) || (c =? 8239) || (c =? 8287)
  || (c =? 12288) || (c =? 65279).

Fixpoint trimStart (s : jsstring) : jsstring :=
  match s with
  | c :: r => if is_space c then trimStart r else s
  | [] => []
  end.

Definition trimEnd (s : jsstring) : jsstring := rev (trimStart (rev s)).

Definition trim (s : jsstring) : jsstring := trimEnd (trimStart s).

(** [s.startsWith(c)] and [s.endsWith(c)] for a one-unit pattern. *)
Definition startsWith1 (s : jsstring) (c : Z) : bool :=
  match s with x :: _ => x =? c | [] => false end.

Definition endsWith1 (s : jsstring) (c : Z) : bool :=
  startsWith1 (rev s) c.

(** [s.slice(1, -1)]. *)
Definition slice_1_m1 (s : jsstring) : jsstring := removelast (tl s).

(** [s.replace(/\s+/g, '')]. *)
Definition strip_spaces (s : jsstring) : jsstring :=
  filter (fun c => negb (is_space c)) s.

(** [s.replace(/-/g, '+').replace(/_/g, '/')]. *)
Definition url_to_std (s : jsstring) : jsstring :=
  map (fun c => if c =? 95 then 47 else c)
      (map (fun c => if c =? 45 then 43 else c) s).

(** The two replacements together, on one code unit. *)
Definition std_char (c : Z) : Z :=
  if c =? 45 then 43 else if c =? 95 then 47 else c.

(** ** [maskApiKey] *)

Definition maskApiKey (key : jsstring) : jsstring :=
  let n := length key in
  if (n <=? 12)%nat then repeat STAR n
  else firstn 4 key ++ repeat STAR (n - 8) ++ skipn (n - 4) key.

(** ** Hexadecimal *)

Definition hex_value (c : Z) : option Z :=
  if (48 <=? c) && (c <=? 57) then Some (c - 48)
  else if (97 <=? c) && (c <=? 102) then Some (c - 87)
  else if (65 <=? c) && (c <=? 70) then Some (c - 55)
  else None.

Definition is_hex_digit (c : Z) : bool :=
  match hex_value c with Some _ => true | None => false end.

(** [/^(?:0x)?[0-9a-fA-F]{64}$/.test(s)]. *)
Definition hex64 (s : jsstring) : bool :=
  (length s =? 64)%nat && forallb is_hex_digit s.

(** [s.startsWith('0x')]. *)
Definition startsWith_0x (s : jsstring) : bool :=
  match s with a :: b :: _ => (a =? 48) && (b =? 120) | _ => false end.

Definition hexMatch (s : jsstring) : bool :=
  hex64 s || startsWith_0x s && hex64 (skipn 2 s).

(** [Number.parseInt(s, 16)] on a string that neither starts with
    white space, a sign nor a [0x] prefix: the value of the longest
    prefix of hexadecimal digits, [None] (NaN) when there is none. *)
Fixpoint parse_hex_digits (acc : Z) (s : jsstring) : Z :=
  match s with
  | c :: r =>
      match hex_value c with
      | Some d => parse_hex_digits (acc * 16 + d) r
      | None => acc
      end
  | [] => acc
  end.

Definition parseInt16 (s : jsstring) : option Z :=
  match s with
  | c :: _ => if is_hex_digit c then Some (parse_hex_digits 0 s) else None
  | [] => None
  end.

(** Storing a number into a [Uint8Array] slot (ToUint8; NaN is 0). *)
Definition to_uint8 (v : option Z) : Z :=
  match v with Some n => n mod 256 | None => 0 end.

(** [b.toString(16)] of an octet: one or two lower-case digits. *)
Definition hex_digit_char (d : Z) : Z :=
  if d <? 10 then 48 + d else 87 + d.

Definition byte_toString16 (b : Z) : jsstring :=
  if b <? 16 then [hex_digit_char b]
  else [hex_digit_char (b / 16); hex_digit_char (b mod 16)].

(** [s.padStart(2, '0')]. *)
Definition padStart2 (s : jsstring) : jsstring :=
  repeat 48 (2 - length s) ++ s.

Definition byte_hex (b : Z) : jsstring := padStart2 (byte_toString16 b).

(** [Array.from(bs).map(b => b.toString(16).padStart(2,'0')).join('')];
    also [Buffer.from(bs).toString('hex')] of the tests. *)
Definition hex_of_bytes (bs : bytes) : jsstring := flat_map byte_hex bs.

(** ** Base64 ([atob], and the encoder the tests use) *)

Module Base64.

Definition PAD : Z := 61.

(** Index of a character in the standard alphabet. *)
Definition value (c : Z) : option Z :=
  if (65 <=? c) && (c <=? 90) then Some (c - 65)
  else if (97 <=? c) && (c <=? 122) then Some (c - 71)
  else if (48 <=? c) && (c <=? 57) then Some (c + 4)
  else if c =? 43 then Some 62
  else if c =? 47 then Some 63
  else None.

Definition is_alphabet (c : Z) : bool :=
  match value c with Some _ => true | None => false end.

(** ASCII white space, which forgiving-base64 decoding removes. *)
Definition is_ascii_space (c : Z) : bool :=
  (c =? 9) || (c =? 10) || (c =? 12) || (c =? 13) || (c =? 32).

Definition sextet (c : Z) : Z :=
  match value c with Some v => v | None => 0 end.

(** Sextets to octets, four at a time; a final group of two or three
    sextets gives one or two octets, its surplus bits discarded. *)
Fixpoint octets (s : list Z) : bytes :=
  match s with
  | a :: b :: c :: d :: r =>
      let n := ((a * 64 + b) * 64 + c) * 64 + d in
      n / 65536 :: (n / 256) mod 256 :: n mod 256 :: octets r
  | [a; b; c] =>
      let n := ((a * 64 + b) * 64 + c) / 4 in
      [n / 256; n mod 256]
  | [a; b] => [(a * 64 + b) / 16]
  | _ => []
  end.

(** Remove up to two trailing [=] (only when the length is a
    multiple of four). *)
Definition strip_padding (s : jsstring) : jsstring :=
  if (length s mod 4 =? 0)%nat then
    match rev s with
    | a :: r =>
        if a =? PAD then
          match r with
          | b :: r' => if b =? PAD then rev r' else rev r
          | [] => rev r
          end
        else s
    | [] => s
    end
  else s.

(** [atob(s)]: the forgiving-base64 decode of the HTML standard.
    The result is a binary string, one code unit per octet. *)
Definition atob (s : jsstring) : result jsstring :=
  let data := strip_padding (filter (fun c => negb (is_ascii_space c)) s) in
  if (length data mod 4 =? 1)%nat then Throw InvalidCharacterError
  else if negb (forallb is_alphabet data) then Throw InvalidCharacterError
  else Ok (octets (map sextet data)).

(** The encoder: [Buffer.from(bs).toString('base64')]. *)
Definition char (v : Z) : Z :=
  if v <? 26 then v + 65
  else if v <? 52 then v + 71
  else if v <? 62 then v - 4
  else if v =? 62 then 43
  else 47.

Fixpoint encode_data (bs : bytes) : jsstring :=
  match bs with
  | x :: y :: z :: r =>
      char (x / 4) :: char ((x mod 4) * 16 + y / 16)
        :: char ((y mod 16) * 4 + z / 64) :: char (z mod 64) :: encode_data r
  | [x; y] => [char (x / 4); char ((x mod 4) * 16 + y / 16); char ((y mod 16) * 4)]
  | [x] => [char (x / 4); char ((x mod 4) * 16)]
  | [] => []
  end.

(** The padding that completes the last group of four characters. *)
Definition padding (n : nat) : jsstring := repeat PAD ((3 - n mod 3) mod 3).

Definition encode (bs : bytes) : jsstring := encode_data bs ++ padding (length bs).

(** [s.replace(/=+$/g, '')]: the unpadded form. *)
Fixpoint drop_leading_pad (s : jsstring) : jsstring :=
  match s with
  | c :: r => if c =? PAD then drop_leading_pad r else s
  | [] => []
  end.

Definition unpad (s : jsstring) : jsstring := rev (drop_leading_pad (rev s)).

(** [s.replace(/\+/g, '-').replace(/\//g, '_')]: the URL-safe alphabet. *)
Definition to_url (s : jsstring) : jsstring :=
  map (fun c => if c =? 47 then 95 else c)
      (map (fun c => if c =? 43 then 45 else c) s).

End Base64.

(** ** [decodeAes256KeyBytes] *)

Definition MSG_EMPTY : jsstring :=
  js "Invalid KEY_ENCRYPTION_SECRET: value is empty.".
Definition MSG_BAD_LENGTH : jsstring :=
  js "Invalid KEY_ENCRYPTION_SECRET: not valid base64/base64url (bad length). Generate one with `openssl rand -base64 32`.".
Definition MSG_NOT_BASE64 : jsstring :=
  js "Invalid KEY_ENCRYPTION_SECRET: not valid base64/base64url. Generate one with `openssl rand -base64 32`.".
Definition MSG_NOT_32 (n : nat) : jsstring :=
  js "Invalid KEY_ENCRYPTION_SECRET: must decode to 32 bytes (got " ++ nat_toString n
    ++ js "). Generate one with `openssl rand -base64 32`.".

(** The string the decoder works on: trimmed, one layer of matching
    quotes removed, all white space deleted. *)
Definition is_quoted (raw : jsstring) : bool :=
  (startsWith1 raw DQUOTE && endsWith1 raw DQUOTE)
  || (startsWith1 raw SQUOTE && endsWith1 raw SQUOTE).

Definition unquote (raw : jsstring) : jsstring :=
  if is_quoted raw then trim (slice_1_m1 raw) else raw.

Definition normalize (keyEncoded : jsstring) : jsstring :=
  strip_spaces (unquote (trim keyEncoded)).

(** The hexadecimal branch: the loop over [i = 0 .. 31]. *)
Definition hex_key_bytes (normalized : jsstring) : bytes :=
  let hex := if startsWith_0x normalized then skipn 2 normalized else normalized in
  map (fun i => to_uint8 (parseInt16 (firstn 2 (skipn (i * 2) hex)))) (seq 0 32).

(** The base64 branch. *)
Definition base64_key_bytes (normalized : jsstring) : result bytes :=
  let b64 := url_to_std normalized in
  let m := (length b64 mod 4)%nat in
  if (m =? 1)%nat then Throw (Error MSG_BAD_LENGTH)
  else
    let b64 := if (m =? 0)%nat then b64 else b64 ++ repeat Base64.PAD (4 - m) in
    match Base64.atob b64 with
    | Throw _ => Throw (Error MSG_NOT_BASE64)
    | Ok decoded =>
        let bs := map (fun c => c mod 256) decoded in
        if (length bs =? 32)%nat then Ok bs
        else Throw (Error (MSG_NOT_32 (length bs)))
    end.

(** The function from the test of [hexMatch] on. *)
Definition decode_normalized (normalized : jsstring) : result bytes :=
  if hexMatch normalized then Ok (hex_key_bytes normalized)
  else base64_key_bytes normalized.

Definition decodeAes256KeyBytes (keyEncoded : jsstring) : result bytes :=
  let raw := trim keyEncoded in
  match raw with
  | [] => Throw (Error MSG_EMPTY)
  | _ => decode_normalized (strip_spaces (unquote raw))
  end.

(** A configuration error: an [Error] whose message starts with
    [Invalid KEY_ENCRYPTION_SECRET]. *)
Definition is_config_error (e : exn) : Prop :=
  exists rest, e = Error (js "Invalid KEY_ENCRYPTION_SECRET" ++ rest).

(** ** UTF-8 ([TextEncoder] and [TextDecoder]) *)

Module Utf8.

Definition REPLACEMENT : Z := 0xFFFD.
Definition BOM : Z := 0xFEFF.

Definition is_high (c : Z) : bool := (0xD800 <=? c) && (c <=? 0xDBFF).
Definition is_low (c : Z) : bool := (0xDC00 <=? c) && (c <=? 0xDFFF).

(** The scalar values of a string: a surrogate pair is one code
    point, an unpaired surrogate becomes U+FFFD (the conversion to a
    USVString that [TextEncoder.encode] applies to its argument). *)
Fixpoint scalar_values (s : jsstring) : list Z :=
  match s with
  | [] => []
  | c :: r =>
      if is_high c then
        match r with
        | d :: r' =>
            if is_low d
            then (0x10000 + (c - 0xD800) * 0x400 + (d - 0xDC00)) :: scalar_values r'
            else REPLACEMENT :: scalar_values r
        | [] => [REPLACEMENT]
        end
      else if is_low c then REPLACEMENT :: scalar_values r
      else c :: scalar_values r
  end.

Definition encode_scalar (cp : Z) : bytes :=
  if cp <? 0x80 then [cp]
  else if cp <? 0x800 then [0xC0 + cp / 64; 0x80 + cp mod 64]
  else if cp <? 0x10000 then
    [0xE0 + cp / 4096; 0x80 + (cp / 64) mod 64; 0x80 + cp mod 64]
  else
    [0xF0 + cp / 262144; 0x80 + (cp / 4096) mod 64;
     0x80 + (cp / 64) mod 64; 0x80 + cp mod 64].

(** [new TextEncoder().encode(s)]. *)
Definition encode (s : jsstring) : bytes :=
  flat_map encode_scalar (scalar_values s).

(** The UTF-8 decoder of the Encoding standard: a state machine
    over the octets, in replacement mode. *)
Record state : Type := mkState {
  code_point : Z;
  bytes_seen : nat;
  bytes_needed : nat;
  lower : Z;
  upper : Z
}.

Definition initial : state := mkState 0 0 0 0x80 0xBF.

(** An octet read when no sequence is in progress. *)
Definition lead (b : Z) : list Z * state :=
  if (0 <=? b) && (b <=? 0x7F) then ([b], initial)
  else if (0xC2 <=? b) && (b <=? 0xDF) then
    ([], mkState (b mod 32) 0 1 0x80 0xBF)
  else if (0xE0 <=? b) && (b <=? 0xEF) then
    ([], mkState (b mod 16) 0 2
                 (if b =? 0xE0 then 0xA0 else 0x80)
                 (if b =? 0xED then 0x9F else 0xBF))
  else if (0xF0 <=? b) && (b <=? 0xF4) then
    ([], mkState (b mod 8) 0 3
                 (if b =? 0xF0 then 0x90 else 0x80)
                 (if b =? 0xF4 then 0x8F else 0xBF))
  else ([REPLACEMENT], initial).

Definition step (st : state) (b : Z) : list Z * state :=
  match bytes_needed st with
  | O => lead b
  | S _ =>
      if (b <? lower st) || (upper st <? b) then
        (* the sequence is broken: emit U+FFFD and read [b] afresh *)
        let '(out, st') := lead b in (REPLACEMENT :: out, st')
      else
        let cp := code_point st * 64 + b mod 64 in
        if (S (bytes_seen st) =? bytes_needed st)%nat then ([cp], initial)
        else ([], mkState cp (S (bytes_seen st)) (bytes_needed st) 0x80 0xBF)
  end.

Fixpoint run (st : state) (bs : bytes) : list Z :=
  match bs with
  | [] => match bytes_needed st with O => [] | S _ => [REPLACEMENT] end
  | b :: r => let '(out, st') := step st b in out ++ run st' r
  end.

(** A [TextDecoder] built with no options does not ignore the byte
    order mark: a leading U+FEFF is dropped from the output. *)
Definition strip_bom (cps : list Z) : list Z :=
  match cps with
  | c :: r => if c =? BOM then r else cps
  | [] => []
  end.

Definition code_units (cp : Z) : jsstring :=
  if cp <? 0x10000 then [cp]
  else [0xD800 + (cp - 0x10000) / 0x400; 0xDC00 + (cp - 0x10000) mod 0x400].

(** [new TextDecoder().decode(bs)]. *)
Definition decode (bs : bytes) : jsstring :=
  flat_map code_units (strip_bom (run initial bs)).

(** Unicode scalar values: code points that are not surrogates. *)
Definition is_scalar (cp : Z) : Prop :=
  0 <= cp < 0xD800 \/ 0xE000 <= cp < 0x110000.

(** Strings that are well-formed UTF-16. *)
Definition is_bmp_scalar (c : Z) : bool :=
  (0 <=? c) && (c <? 0xD800) || (0xE000 <=? c) && (c <? 0x10000).

Fixpoint well_formed (s : jsstring) : bool :=
  match s with
  | [] => true
  | c :: r =>
      if is_high c then
        match r with
        | d :: r' => is_low d && well_formed r'
        | [] => false
        end
      else is_bmp_scalar c && well_formed r
  end.

End Utf8.

(** ** The platform: AES-256-GCM and the entropy source

    [crypto.subtle] and [crypto.getRandomValues] belong to the
    runtime.  AES-GCM is counter mode under a key stream followed by
    a 128-bit authentication tag; the block cipher behind the key
    stream and the universal hash behind the tag are left abstract. *)

Class WebCrypto : Type := {
  (** octet [i] of the counter-mode key stream for a key and a nonce *)
  gctr_stream : bytes -> bytes -> nat -> Z;
  (** the authentication tag of a cipher text, as a number *)
  gcm_tag : bytes -> bytes -> bytes -> Z;
  (** octet [i] delivered by the entropy source *)
  entropy : nat -> Z
}.

Definition TAG_LENGTH : nat := 16.
Definition IV_LENGTH : nat := 12.

Definition bytes_eqb (a b : bytes) : bool :=
  if list_eq_dec Z.eq_dec a b then true else false.

(** Big-endian octets of a number. *)
Definition be_bytes (n : nat) (v : Z) : bytes :=
  map (fun i => (v / 256 ^ Z.of_nat (n - 1 - i)) mod 256) (seq 0 n).

(** A [CryptoKey] imported from raw octets. *)
Record CryptoKey : Type := mkKey { raw_key : bytes }.

Section Platform.
Context `{WebCrypto}.

Fixpoint xor_from (key iv : bytes) (i : nat) (data : bytes) : bytes :=
  match data with
  | [] => []
  | b :: r => Z.lxor b (gctr_stream key iv i mod 256) :: xor_from key iv (S i) r
  end.

Definition gctr (key iv data : bytes) : bytes := xor_from key iv 0 data.

Definition tag_bytes (key iv ciphertext : bytes) : bytes :=
  be_bytes TAG_LENGTH (gcm_tag key iv ciphertext).

(** [crypto.subtle.encrypt({name: 'AES-GCM', iv}, key, data)]:
    the cipher text followed by its tag. *)
Definition subtle_encrypt (key : CryptoKey) (iv data : bytes) : bytes :=
  let c := gctr (raw_key key) iv data in
  c ++ tag_bytes (raw_key key) iv c.

(** Whether the last 16 octets are the tag of what precedes them. *)
Definition tag_verifies (key : CryptoKey) (iv ciphertext : bytes) : bool :=
  let n := (length ciphertext - TAG_LENGTH)%nat in
  bytes_eqb (skipn n ciphertext) (tag_bytes (raw_key key) iv (firstn n ciphertext)).

(** [crypto.subtle.decrypt({name: 'AES-GCM', iv}, key, data)]. *)
Definition subtle_decrypt (key : CryptoKey) (iv ciphertext : bytes) : result bytes :=
  if (length ciphertext <? TAG_LENGTH)%nat then Throw OperationError
  else if tag_verifies key iv ciphertext
  then Ok (gctr (raw_key key) iv (firstn (length ciphertext - TAG_LENGTH) ciphertext))
  else Throw OperationError.

(** Computations that draw from the entropy source: the state is
    the number of octets drawn so far. *)
Definition M (A : Type) : Type := nat -> result A * nat.

Definition ret {A} (a : A) : M A := fun pos => (Ok a, pos).

Definition bind {A B} (m : M A) (f : A -> M B) : M B :=
  fun pos =>
    match m pos with
    | (Ok a, pos') => f a pos'
    | (Throw e, pos') => (Throw e, pos')
    end.

Definition lift {A} (r : result A) : M A := fun pos => (r, pos).

Notation "x <- m ;; k" := (bind m (fun x => k))
  (at level 61, m at next level, right associativity).

(** [crypto.getRandomValues(new Uint8Array(n))]; more than 65536
    octets in one call is refused. *)
Definition getRandomValues (n : nat) : M bytes :=
  fun pos =>
    if 65536 <? Z.of_nat n then (Throw QuotaExceededError, pos)
    else (Ok (map (fun i => entropy (pos + i) mod 256) (seq 0 n)), (pos + n)%nat).

(** The nonce a call at entropy position [pos] draws. *)
Definition nonce_at (pos : nat) : bytes :=
  map (fun i => entropy (pos + i) mod 256) (seq 0 IV_LENGTH).

Definition importKey (keyEncoded : jsstring) : result CryptoKey :=
  match decodeAes256KeyBytes keyEncoded with
  | Ok keyBytes => Ok (mkKey keyBytes)
  | Throw e => Throw e
  end.

Definition encrypt (plaintext keyBase64 : jsstring) : M bytes :=
  key <- lift (importKey keyBase64) ;;
  iv <- getRandomValues IV_LENGTH ;;
  let data := Utf8.encode plaintext in
  let ciphertext := subtle_encrypt key iv data in
  ret (iv ++ ciphertext).

Definition decrypt (encrypted : bytes) (keyBase64 : jsstring) : result jsstring :=
  match importKey keyBase64 with
  | Throw e => Throw e
  | Ok key =>
      let iv := firstn 12 encrypted in
      let ciphertext := skipn 12 encrypted in
      match subtle_decrypt key iv ciphertext with
      | Throw e => Throw e
      | Ok plaintext => Ok (Utf8.decode plaintext)
      end
  end.

Definition generateToken (length : nat) : M jsstring :=
  bs <- getRandomValues length ;;
  ret (hex_of_bytes bs).


End Platform.

(** ** The admin-API CORS origin callback ([app.ts]) *)

(** What the callback reads of a parsed URL. *)
Record URL : Type := mkURL { url_hostname : jsstring; url_origin : jsstring }.

(** [new URL(s)] of the runtime; [None] when it throws. *)
Class UrlParser : Type := { new_URL : jsstring -> option URL }.

Record Env : Type := mkEnv { ADMIN_UI_URL : option jsstring }.

Section Cors.
Context `{UrlParser}.

Definition originHostname (origin : jsstring) : option jsstring :=
  match new_URL origin with
  | Some u => Some (url_hostname u)
  | None => None
  end.

Definition isLocalhostOrigin (origin : jsstring) : bool :=
  match originHostname origin with
  | Some hostname =>
      jsstring_eqb hostname (js "localhost") || jsstring_eqb hostname (js "127.0.0.1")
  | None => false
  end.

(** The set built at the start of the middleware. *)
Definition allowedOrigins (env : Env) : list jsstring :=
  match ADMIN_UI_URL env with
  | Some (c :: u) =>
      match new_URL (c :: u) with
      | Some url => [url_origin url]
      | None => []
      end
  | _ => []
  end.

(** The [origin] option handed to [cors]. *)
Definition corsOrigin (env : Env) (origin : jsstring) : option jsstring :=
  match origin with
  | [] => Some (js "*")
  | _ =>
      if isLocalhostOrigin origin then Some origin
      else if existsb (jsstring_eqb origin) (allowedOrigins env) then Some origin
      else None
  end.

(** [cors] calls it with the request's [Origin] header, or with the
    empty string when the request has none. *)
Definition adminCorsAllowOrigin (env : Env) (header : option jsstring) : option jsstring :=
  corsOrigin env (match header with Some h => h | None => [] end).

End Cors.

(** ** Tool scoping and the per-client limit *)

Record Identity : Type := mkIdentity {
  clientTokenId : jsstring;
  allowedTools : option (list jsstring);
  rateLimit : option Z
}.

Record ScopeErrorData : Type := mkScopeErrorData {
  requestedTool : jsstring;
  allowedToolList : list jsstring
}.

Inductive authorization : Type :=
| Allowed
| ScopeError (message : jsstring) (data : ScopeErrorData).

(** [xs.join(', ')]. *)
Fixpoint join_comma (xs : list jsstring) : jsstring :=
  match xs with
  | [] => []
  | [x] => x
  | x :: r => x ++ js ", " ++ join_comma r
  end.

(** [xs.includes(x)]: exact comparison of code units. *)
Definition includes (xs : list jsstring) (x : jsstring) : bool :=
  existsb (jsstring_eqb x) xs.

(** The rejection message of the contract tests. *)
Definition scope_message (tool : jsstring) (allowed : list jsstring) : jsstring :=
  js "Tool '" ++ tool ++ js "' is not allowed for this token. Allowed tools: "
    ++ join_comma allowed.

(** Modelled from the spec: [authorizeTool], whose implementation (the
    MCP handler) is not among the sources; section 4.3 and the
    contract test on tool scoping give its behaviour and message. *)
Definition authorizeTool (identity : Identity) (toolName : jsstring) : authorization :=
  match allowedTools identity with
  | None => Allowed
  | Some allowed =>
      if includes allowed toolName then Allowed
      else ScopeError (scope_message toolName allowed)
                      (mkScopeErrorData toolName allowed)
  end.

(** Modelled from the spec: the per-client limit the rate limiter is
    called with, whose implementation (the rate-limit middleware) is
    not among the sources; section 4.4 and the contract tests give it
    as [tokenRateLimit ?? defaultLimit]. *)
Definition effectiveClientLimit (identity : Identity) (defaultLimit : Z) : Z :=
  match rateLimit identity with
  | Some limit => limit
  | None => defaultLimit
  end.

(** [s] contains [sub] as a substring. *)
Definition contains (s sub : jsstring) : Prop :=
  exists pre post, s = pre ++ sub ++ post.

(** ** Predicates the statements use *)

(** A character of the base64 or of the base64url alphabet. *)
Definition is_b64_char (c : Z) : bool :=
  Base64.is_alphabet c || (c =? 45) || (c =? 95).

(** A character of a spelling of a key: of either alphabet, or [=]. *)
Definition is_key_char (c : Z) : bool := is_b64_char c || (c =? Base64.PAD).

(** The spellings of a key the decoder is to accept: hexadecimal,
    [0x]-prefixed hexadecimal, base64 and base64url, each of the last
    two with and without padding. *)
Definition key_spellings (k : bytes) : list jsstring :=
  [ hex_of_bytes k;
    js "0x" ++ hex_of_bytes k;
    Base64.encode k;
    Base64.unpad (Base64.encode k);
    Base64.to_url (Base64.encode k);
    Base64.unpad (Base64.to_url (Base64.encode k)) ].

(** The hexadecimal form: 64 hexadecimal digits, alone or after [0x]. *)
Definition is_hex_form (n : jsstring) : Prop :=
  exists h, (n = h \/ n = js "0x" ++ h)
            /\ length h = 64%nat /\ forallb is_hex_digit h = true.

(** The base64 form, in either alphabet: characters [data] whose
    number leaves no remainder of 1 by 4, alone or followed by the
    padding that completes their last group of four. *)
Definition is_base64_form (n data : jsstring) : Prop :=
  forallb is_b64_char data = true
  /\ (length data mod 4 <> 1)%nat
  /\ (n = data
      \/ n = data ++ repeat Base64.PAD ((4 - length data mod 4) mod 4)).

(** The number of octets that [data] decodes to. *)
Definition decoded_length (data : jsstring) : nat := (length data * 3 / 4)%nat.

(** What [decodeAes256KeyBytes] does once white space is gone. *)
Definition decode_stripped (t : jsstring) : result bytes :=
  match t with
  | [] => Throw (Error MSG_EMPTY)
  | _ => decode_normalized (if is_quoted t then slice_1_m1 t else t)
  end.

(** A lower-case hexadecimal digit, [0-9a-f]. *)
Definition is_lower_hex (c : Z) : bool :=
  (48 <=? c) && (c <=? 57) || (97 <=? c) && (c <=? 102).

(** The failure of [crypto.subtle.decrypt]: the decryption error. *)
Definition is_decryption_error (e : exn) : Prop := e = OperationError.

(** A key as [importKey] accepts it: 32 octets. *)
Definition is_key (k : bytes) : Prop :=
  length k = 32%nat /\ Forall is_byte k.

(** ** A small platform on which the model runs

    One instance of the platform interfaces, to evaluate the model on
    concrete inputs: a key stream and a tag that mix key, nonce and
    position, a counter as entropy, and a parser of plain
    [http(s)://host[:port]] URLs. *)

Module Demo.

Definition crypto : WebCrypto := {|
  gctr_stream := fun key iv i =>
    nth i key 7 + 3 * nth (i mod 12) iv 5 + Z.of_nat i;
  gcm_tag := fun key iv c =>
    fold_left (fun acc b => (acc * 257 + b + 1) mod 2 ^ 128) (key ++ iv ++ c) 1;
  entropy := fun i => 37 * Z.of_nat i + 11
|}.

Fixpoint strip_prefix (p s : jsstring) : option jsstring :=
  match p, s with
  | [], _ => Some s
  | a :: p', b :: s' => if a =? b then strip_prefix p' s' else None
  | _ :: _, [] => None
  end.

(** The part of [s] before the first [:] or [/]. *)
Fixpoint authority_part (s : jsstring) : jsstring :=
  match s with
  | [] => []
  | c :: r => if (c =? 58) || (c =? 47) then [] else c :: authority_part r
  end.

Definition after_scheme (scheme rest : jsstring) : option URL :=
  let host := authority_part rest in
  match host with
  | [] => None
  | _ =>
      let port :=
        match skipn (length host) rest with
        | 58 :: t => 58 :: authority_part t
        | _ => []
        end in
      Some (mkURL host (scheme ++ host ++ port))
  end.

Definition parse (s : jsstring) : option URL :=
  match strip_prefix (js "http://") s with
  | Some rest => after_scheme (js "http://") rest
  | None =>
      match strip_prefix (js "https://") s with
      | Some rest => after_scheme (js "https://") rest
      | None => None
      end
  end.

Definition urls : UrlParser := {| new_URL := parse |}.

(** A 32-octet key and its hexadecimal spelling. *)
Definition key32 : bytes := map Z.of_nat (seq 0 32).
Definition key32_hex : jsstring :=
  js "000102030405060708090a0b0c0d0e0f101112131415161718191a1b1c1d1e1f".

End Demo.

(** ** Further functions of the sources *)

(** *** [sha256] and [hmacSha256]

    [crypto.subtle.digest] and [crypto.subtle.sign] belong to the
    runtime: SHA-256 and HMAC-SHA-256 give 256 bits, here the number
    they spell, written out as 32 big-endian octets. *)

Class Hashing : Type := {
  sha256_word : bytes -> Z;
  hmac_sha256_word : bytes -> bytes -> Z
}.

Definition DIGEST_LENGTH : nat := 32.

Section Hashes.
Context `{Hashing}.

(** [crypto.subtle.digest('SHA-256', data)]. *)
Definition subtle_digest (data : bytes) : bytes :=
  be_bytes DIGEST_LENGTH (sha256_word data).

(** [crypto.subtle.sign('HMAC', key, data)] under a SHA-256 key. *)
Definition subtle_sign (keyData data : bytes) : bytes :=
  be_bytes DIGEST_LENGTH (hmac_sha256_word keyData data).

Definition sha256 (data : jsstring) : jsstring :=
  let bs := Utf8.encode data in
  let hash := subtle_digest bs in
  hex_of_bytes hash.

(** [importKey] refuses an HMAC key of no octets, so the promise
    rejects ([None]) for the empty secret. *)
Definition hmacSha256 (data secret : jsstring) : option jsstring :=
  let keyData := Utf8.encode secret in
  let dataBytes := Utf8.encode data in
  match keyData with
  | [] => None
  | _ => Some (hex_of_bytes (subtle_sign keyData dataBytes))
  end.

End Hashes.

(** *** The session name of the SSE endpoint ([app.ts]) *)

(** [s.startsWith(pat)]. *)
Fixpoint startsWith (pat s : jsstring) : bool :=
  match pat, s with
  | [], _ => true
  | a :: p, b :: r => (a =? b) && startsWith p r
  | _ :: _, [] => false
  end.

(** [s.replace(pat, '')] for a string pattern: the first occurrence
    of [pat] is removed. *)
Fixpoint remove_first (pat s : jsstring) : jsstring :=
  match s with
  | [] => []
  | c :: r => if startsWith pat s then skipn (length pat) s else c :: remove_first pat r
  end.

Definition BEARER : jsstring := js "Bearer ".

(** [authHeader ? authHeader.replace('Bearer ', '').substring(0, 16)
    : 'anonymous'], the name the session object is looked up by. *)
Definition sseSessionId (authHeader : option jsstring) : jsstring :=
  match authHeader with
  | Some (c :: r) => firstn 16 (remove_first BEARER (c :: r))
  | _ => js "anonymous"
  end.

(** *** Notions for the statements on these and on the codec *)

(** The octets that pairs of hexadecimal digits spell. *)
Definition hex_digit_value (c : Z) : Z :=
  match hex_value c with Some d => d | None => 0 end.

Fixpoint hex_pairs (h : jsstring) : bytes :=
  match h with
  | a :: b :: r => (16 * hex_digit_value a + hex_digit_value b) :: hex_pairs r
  | _ => []
  end.

(** [s.toWellFormed()]: every unpaired surrogate becomes U+FFFD. *)
Fixpoint toWellFormed (s : jsstring) : jsstring :=
  match s with
  | [] => []
  | c :: r =>
      if Utf8.is_high c then
        match r with
        | d :: r' =>
            if Utf8.is_low d then c :: d :: toWellFormed r'
            else Utf8.REPLACEMENT :: toWellFormed r
        | [] => [Utf8.REPLACEMENT]
        end
      else if Utf8.is_low c then Utf8.REPLACEMENT :: toWellFormed r
      else c :: toWellFormed r
  end.

(** What a code unit that does not start a surrogate pair becomes. *)
Definition lone (c : Z) : Z :=
  if Utf8.is_high c || Utf8.is_low c then Utf8.REPLACEMENT else c.

(** A string without its leading U+FEFF, if it has one. *)
Definition drop_bom (s : jsstring) : jsstring :=
  match s with
  | c :: r => if c =? Utf8.BOM then r else s
  | [] => []
  end.

(** Code units of the ASCII range. *)
Definition is_ascii (c : Z) : bool := (0 <=? c) && (c <? 128).

(** Two calls of [encrypt], one after the other. *)
Definition encrypt_twice `{WebCrypto} (first second keyBase64 : jsstring)
  : M (bytes * bytes) :=
  bind (encrypt first keyBase64) (fun a =>
  bind (encrypt second keyBase64) (fun b => ret (a, b))).

(** *** Bearer tokens *)

(** [/^mcp_[a-f0-9]{12}\.[a-f0-9]{48}$/], the token format the contract
    tests hold both runtimes to: the literal [mcp_], 12 lower-case
    hexadecimal digits, a dot and 48 more digits, 65 code units in
    all. *)
Definition TOKEN_TAG : jsstring := js "mcp_".

Definition DOT : Z := 46.

Definition tokenRegex (token : jsstring) : bool :=
  startsWith TOKEN_TAG token
  && (length token =? 65)%nat
  && forallb is_lower_hex (firstn 12 (skipn 4 token))
  && (nth 16 token 0 =? DOT)
  && forallb is_lower_hex (skipn 17 token).

(** Modelled from the spec: the plaintext that issuing a client token
    generates.  The issuer is not among the sources; the spec has it
    generate a random prefix and a longer random secret and hand out
    [prefix.secret], and the contract tests fix the format to
    [mcp_], 12 digits, a dot, 48 digits.  With [generateToken] as the
    source of randomness that is a draw of 6 octets for the prefix and
    one of 24 for the secret. *)
Definition PREFIX_OCTETS : nat := 6.

Definition SECRET_OCTETS : nat := 24.

Definition issuePlaintextToken `{WebCrypto} : M jsstring :=
  bind (generateToken PREFIX_OCTETS) (fun prefix =>
  bind (generateToken SECRET_OCTETS) (fun secret =>
  ret (TOKEN_TAG ++ prefix ++ DOT :: secret))).

(** A digest function for the demonstrations. *)
Module DemoHash.

Definition hashing : Hashing := {|
  sha256_word := fun data => fold_left (fun acc b => acc * 263 + b + 1) data 7;
  hmac_sha256_word := fun key data =>
    fold_left (fun acc b => acc * 269 + b + 1) (key ++ 0 :: data) 11
|}.

End DemoHash.

(* ================================================================= *)
(** * Part II: properties *)
(* ================================================================= *)

(** ** Tactics *)

(** Linear arithmetic with division and remainder by constants. *)
Ltac arith := Z.div_mod_to_equations; lia.

(** The same over [nat]. *)
Ltac natarith := zify; Z.div_mod_to_equations; lia.

(** Decides the integer comparisons of the goal, one at a time, and
    drops the cases the hypotheses exclude. *)
Ltac decide_tests :=
  repeat match goal with
         | |- context [?a <=? ?b] => destruct (Z.leb_spec a b); try arith
         | |- context [?a <? ?b] => destruct (Z.ltb_spec a b); try arith
         | |- context [?a =? ?b] => destruct (Z.eqb_spec a b); try arith
         end.

(** ** Checks on concrete inputs *)

Example mask_short : maskApiKey (js "abcdefgh") = js "********".
Proof. reflexivity. Qed.

Example mask_long : maskApiKey (js "abcdefghijklmnop") = js "abcd********mnop".
Proof. reflexivity. Qed.

Example decode_hex_zero :
  decodeAes256KeyBytes (js "0x000102030405060708090a0b0c0d0e0f101112131415161718191A1B1C1D1E1F")
  = Ok (map Z.of_nat (seq 0 32)).
Proof. vm_compute. reflexivity. Qed.

Example decode_b64_zero :
  decodeAes256KeyBytes (js " 'AAECAwQFBgcICQoLDA0ODxAREhMUFRYXGBkaGxwdHh8' ")
  = Ok (map Z.of_nat (seq 0 32)).
Proof. vm_compute. reflexivity. Qed.

Example encode_b64_zero :
  Base64.encode (map Z.of_nat (seq 0 32)) = js "AAECAwQFBgcICQoLDA0ODxAREhMUFRYXGBkaGxwdHh8=".
Proof. vm_compute. reflexivity. Qed.

(** ** [maskApiKey] *)

Lemma maskApiKey_length (key : jsstring) :
  length (maskApiKey key) = length key.
Proof.
  unfold maskApiKey. destruct (Nat.leb_spec (length key) 12) as [Hle | Hgt].
  - apply repeat_length.
  - rewrite !length_app, repeat_length, length_firstn, length_skipn. lia.
Qed.

(** C6. [maskApiKey] keeps the length of its input.  An input of at
    most 12 code units becomes that many mask characters, whatever its
    content; a longer one keeps its first 4 and its last 4 code units
    around mask characters.  So [abcdefgh] gives 8 mask characters and
    [abcdefghijklmnop] gives [abcd], 8 mask characters, [mnop]. *)
Theorem maskApiKey_masks (key : jsstring) :
  length (maskApiKey key) = length key
  /\ ((length key <= 12)%nat ->
      maskApiKey key = repeat STAR (length key)
      /\ forall other, length other = length key -> maskApiKey other = maskApiKey key)
  /\ ((12 < length key)%nat ->
      maskApiKey key
      = firstn 4 key ++ repeat STAR (length key - 8) ++ skipn (length key - 4) key
      /\ length (firstn 4 key) = 4%nat
      /\ length (skipn (length key - 4) key) = 4%nat)
  /\ maskApiKey (js "abcdefgh") = repeat STAR 8
  /\ maskApiKey (js "abcdefghijklmnop") = js "abcd" ++ repeat STAR 8 ++ js "mnop".
Proof.
  split; [apply maskApiKey_length|].
  split; [|split; [|split; reflexivity]].
  - intros Hle. unfold maskApiKey.
    assert (E : (length key <=? 12)%nat = true) by (apply Nat.leb_le; exact Hle).
    rewrite E. split; [reflexivity|].
    intros other Hlen. rewrite Hlen, E. reflexivity.
  - intros Hgt. unfold maskApiKey.
    assert (E : (length key <=? 12)%nat = false) by (apply Nat.leb_gt; exact Hgt).
    rewrite E, length_firstn, length_skipn. repeat split; lia.
Qed.

(** ** Lists split at the length of a prefix *)

Lemma firstn_prefix {A} (a b : list A) : firstn (length a) (a ++ b) = a.
Proof. induction a as [| x a IH]; simpl; [destruct b|]; congruence. Qed.

Lemma skipn_prefix {A} (a b : list A) : skipn (length a) (a ++ b) = b.
Proof. induction a as [| x a IH]; simpl; auto. Qed.

Lemma bytes_eqb_eq (a b : bytes) : bytes_eqb a b = true <-> a = b.
Proof. unfold bytes_eqb. destruct (list_eq_dec Z.eq_dec a b); split; congruence. Qed.

Lemma jsstring_eqb_eq (a b : jsstring) : jsstring_eqb a b = true <-> a = b.
Proof. unfold jsstring_eqb. destruct (list_eq_dec Z.eq_dec a b); split; congruence. Qed.

Lemma jsstring_eqb_refl (a : jsstring) : jsstring_eqb a a = true.
Proof. apply jsstring_eqb_eq. reflexivity. Qed.

(** ** Hexadecimal rendering of octets *)

Lemma hex_digit_char_lower (d : Z) :
  0 <= d < 16 -> is_lower_hex (hex_digit_char d) = true.
Proof.
  intros Hd. unfold hex_digit_char, is_lower_hex.
  destruct (Z.ltb_spec d 10).
  - apply orb_true_iff. left. apply andb_true_iff. split; apply Z.leb_le; lia.
  - apply orb_true_iff. right. apply andb_true_iff. split; apply Z.leb_le; lia.
Qed.

Lemma byte_hex_shape (b : Z) :
  is_byte b ->
  length (byte_hex b) = 2%nat /\ forallb is_lower_hex (byte_hex b) = true.
Proof.
  intros Hb. unfold is_byte in Hb. unfold byte_hex, byte_toString16, padStart2.
  destruct (Z.ltb_spec b 16); simpl.
  - split; [reflexivity|]. rewrite hex_digit_char_lower by lia. reflexivity.
  - split; [reflexivity|].
    rewrite !hex_digit_char_lower; [reflexivity | |].
    + apply Z.mod_pos_bound. lia.
    + split; [apply Z.div_pos; lia | apply Z.div_lt_upper_bound; lia].
Qed.

Lemma hex_of_bytes_shape (bs : bytes) :
  Forall is_byte bs ->
  length (hex_of_bytes bs) = (2 * length bs)%nat
  /\ forallb is_lower_hex (hex_of_bytes bs) = true.
Proof.
  induction 1 as [| b bs Hb _ [IHlen IHhex]]; [split; reflexivity|].
  destruct (byte_hex_shape b Hb) as [Hlen Hhex].
  unfold hex_of_bytes in *. simpl.
  rewrite length_app, forallb_app, Hlen, Hhex, IHlen, IHhex. split; [lia | reflexivity].
Qed.

(** ** The platform *)

Section PlatformFacts.
Context `{WebCrypto}.

Lemma length_be_bytes (n : nat) (v : Z) : length (be_bytes n v) = n.
Proof. unfold be_bytes. rewrite length_map, length_seq. reflexivity. Qed.

Lemma length_tag_bytes (key iv c : bytes) : length (tag_bytes key iv c) = TAG_LENGTH.
Proof. apply length_be_bytes. Qed.

Lemma length_xor_from (key iv : bytes) (data : bytes) :
  forall i, length (xor_from key iv i data) = length data.
Proof. induction data as [| b r IH]; intros i; simpl; [|rewrite IH]; reflexivity. Qed.

(** The key stream is its own inverse. *)
Lemma xor_from_involutive (key iv : bytes) (data : bytes) :
  forall i, xor_from key iv i (xor_from key iv i data) = data.
Proof.
  induction data as [| b r IH]; intros i; simpl; [reflexivity|].
  rewrite IH, Z.lxor_assoc, Z.lxor_nilpotent, Z.lxor_0_r. reflexivity.
Qed.

Lemma length_subtle_encrypt (key : CryptoKey) (iv data : bytes) :
  length (subtle_encrypt key iv data) = (length data + TAG_LENGTH)%nat.
Proof.
  unfold subtle_encrypt, gctr.
  rewrite length_app, length_xor_from, length_tag_bytes. reflexivity.
Qed.

(** What [subtle_encrypt] seals, [subtle_decrypt] opens. *)
Lemma subtle_decrypt_encrypt (key : CryptoKey) (iv data : bytes) :
  subtle_decrypt key iv (subtle_encrypt key iv data) = Ok data.
Proof.
  unfold subtle_decrypt, tag_verifies.
  rewrite length_subtle_encrypt.
  replace (length data + TAG_LENGTH <? TAG_LENGTH)%nat with false
    by (symmetry; apply Nat.ltb_ge; lia).
  replace (length data + TAG_LENGTH - TAG_LENGTH)%nat with (length data) by lia.
  unfold subtle_encrypt, gctr.
  pose proof (length_xor_from (raw_key key) iv data 0) as Hlen.
  set (c := xor_from (raw_key key) iv 0 data) in *.
  rewrite <- Hlen, firstn_prefix, skipn_prefix.
  replace (bytes_eqb _ _) with true by (symmetry; apply bytes_eqb_eq; reflexivity).
  subst c. rewrite xor_from_involutive. reflexivity.
Qed.

Lemma getRandomValues_within_quota (n pos : nat) :
  Z.of_nat n <= 65536 ->
  getRandomValues n pos
  = (Ok (map (fun i => entropy (pos + i) mod 256) (seq 0 n)), (pos + n)%nat).
Proof.
  intros Hn. unfold getRandomValues.
  destruct (Z.ltb_spec 65536 (Z.of_nat n)); [lia | reflexivity].
Qed.

Lemma random_octets_are_bytes (n pos : nat) :
  Forall is_byte (map (fun i => entropy (pos + i) mod 256) (seq 0 n)).
Proof.
  apply Forall_forall. intros b Hin. apply in_map_iff in Hin.
  destruct Hin as [i [<- _]]. apply Z.mod_pos_bound. lia.
Qed.

End PlatformFacts.

(** ** [generateToken] *)

Section TokenFacts.
Context `{WebCrypto}.





End TokenFacts.


(** The two tokens of the contract tests have the format; a token with
    capitals, one without the tag, one that is too long and one
    without the dot do not. *)
Lemma tokenRegex_contract_tokens :
  tokenRegex (js "mcp_abc123def456.0123456789abcdef0123456789abcdef0123456789abcdef") = true
  /\ tokenRegex (js "mcp_def456abc123.fedcba9876543210fedcba9876543210fedcba9876543210") = true
  /\ tokenRegex (js "mcp_ABC123def456.0123456789abcdef0123456789abcdef0123456789abcdef") = false
  /\ tokenRegex (js "abc123def456.0123456789abcdef0123456789abcdef0123456789abcdef") = false
  /\ tokenRegex (js "mcp_abc123def456.0123456789abcdef0123456789abcdef0123456789abcdef0") = false
  /\ tokenRegex (js "mcp_abc123def4560123456789abcdef0123456789abcdef0123456789abcdef0") = false.
Proof. vm_compute. repeat split; reflexivity. Qed.

(** The tag itself is not hexadecimal: of an issued token it is the
    digits after the tag and after the dot that are. *)
Lemma token_tag_is_not_hex : forallb is_lower_hex TOKEN_TAG = false.
Proof. reflexivity. Qed.

(** A token issued on the entropy of the demonstrations. *)
Lemma issuePlaintextToken_demo :
  match @issuePlaintextToken Demo.crypto 0%nat with
  | (Ok token, st) => tokenRegex token = true /\ st = 30%nat
  | _ => False
  end.
Proof. vm_compute. split; reflexivity. Qed.


(** ** [encrypt] and [decrypt] *)

Lemma importKey_demo : importKey Demo.key32_hex = Ok (mkKey Demo.key32).
Proof. vm_compute. reflexivity. Qed.

Section CipherFacts.
Context `{WebCrypto}.

Lemma length_nonce_at (pos : nat) : length (nonce_at pos) = 12%nat.
Proof. unfold nonce_at. rewrite length_map, length_seq. reflexivity. Qed.

Lemma encrypt_unfold (plaintext keyBase64 : jsstring) (key : CryptoKey) (pos : nat) :
  importKey keyBase64 = Ok key ->
  encrypt plaintext keyBase64 pos
  = (Ok (nonce_at pos ++ subtle_encrypt key (nonce_at pos) (Utf8.encode plaintext)),
     (pos + 12)%nat).
Proof.
  intros Hkey. unfold encrypt, bind, lift, ret. rewrite Hkey.
  rewrite getRandomValues_within_quota by (unfold IV_LENGTH; lia).
  reflexivity.
Qed.

(** C8. Under a key material that decodes, [encrypt] draws 12 fresh
    octets from the entropy source as its nonce (the source advances by
    12, so the next call draws other octets) and returns the nonce
    followed by the AES-GCM output: the first 12 octets of the result
    are the nonce, the rest is the cipher text with its 16-octet tag,
    and the length is 12 plus the length of that. *)
Theorem encrypt_nonce_then_ciphertext
    (plaintext keyBase64 : jsstring) (key : CryptoKey) (pos : nat) :
  importKey keyBase64 = Ok key ->
  let iv := nonce_at pos in
  let sealed := subtle_encrypt key iv (Utf8.encode plaintext) in
  getRandomValues IV_LENGTH pos = (Ok iv, (pos + 12)%nat)
  /\ length iv = 12%nat
  /\ encrypt plaintext keyBase64 pos = (Ok (iv ++ sealed), (pos + 12)%nat)
  /\ firstn 12 (iv ++ sealed) = iv
  /\ skipn 12 (iv ++ sealed) = sealed
  /\ length (iv ++ sealed) = (12 + length sealed)%nat
  /\ length sealed = (length (Utf8.encode plaintext) + 16)%nat.
Proof.
  intros Hkey iv sealed.
  pose proof (length_nonce_at pos) as Hiv. fold iv in Hiv.
  split; [apply getRandomValues_within_quota; unfold IV_LENGTH; lia|].
  split; [exact Hiv|].
  split; [apply encrypt_unfold; exact Hkey|].
  rewrite <- Hiv at 1 2.
  rewrite firstn_prefix, skipn_prefix, length_app, Hiv.
  repeat split. apply length_subtle_encrypt.
Qed.

Lemma decrypt_unfold (encrypted : bytes) (keyBase64 : jsstring) (key : CryptoKey) :
  importKey keyBase64 = Ok key ->
  decrypt encrypted keyBase64
  = match subtle_decrypt key (firstn 12 encrypted) (skipn 12 encrypted) with
    | Throw e => Throw e
    | Ok plaintext => Ok (Utf8.decode plaintext)
    end.
Proof. intros Hkey. unfold decrypt. rewrite Hkey. reflexivity. Qed.

(** A blob too short to hold a nonce never yields a plaintext,
    whatever the key material. *)
Lemma decrypt_short_never_ok (encrypted : bytes) (keyBase64 : jsstring) :
  (length encrypted < 12)%nat -> is_ok (decrypt encrypted keyBase64) = false.
Proof.
  intros Hshort. unfold decrypt. destruct (importKey keyBase64); [|reflexivity].
  unfold subtle_decrypt.
  replace (length (skipn 12 encrypted) <? TAG_LENGTH)%nat with true; [reflexivity|].
  symmetry. apply Nat.ltb_lt. rewrite length_skipn. unfold TAG_LENGTH. lia.
Qed.

(** C7. Under a key material that decodes, [decrypt] fails with the
    decryption error on every blob shorter than the 12-octet nonce and
    on every blob whose tag does not verify under that key; so it does
    on the output of [encrypt] opened under another key whose tag for
    that cipher text differs, and on a blob whose last 16 octets were
    changed into anything but the tag.  In none of these cases is a
    plaintext returned. *)
Theorem decrypt_rejects
    (encrypted : bytes) (keyBase64 : jsstring) (key : CryptoKey) :
  importKey keyBase64 = Ok key ->
  ((length encrypted < 12)%nat ->
     exists e, decrypt encrypted keyBase64 = Throw e /\ is_decryption_error e)
  /\ (tag_verifies key (firstn 12 encrypted) (skipn 12 encrypted) = false ->
     exists e, decrypt encrypted keyBase64 = Throw e /\ is_decryption_error e)
  /\ (forall plaintext otherBase64 other pos,
        importKey otherBase64 = Ok other ->
        encrypt plaintext otherBase64 pos = (Ok encrypted, (pos + 12)%nat) ->
        let c := gctr (raw_key other) (nonce_at pos) (Utf8.encode plaintext) in
        tag_bytes (raw_key key) (nonce_at pos) c
          <> tag_bytes (raw_key other) (nonce_at pos) c ->
        exists e, decrypt encrypted keyBase64 = Throw e /\ is_decryption_error e)
  /\ (forall iv c forged,
        length iv = 12%nat -> length forged = 16%nat ->
        forged <> tag_bytes (raw_key key) iv c ->
        encrypted = iv ++ c ++ forged ->
        exists e, decrypt encrypted keyBase64 = Throw e /\ is_decryption_error e).
Proof.
  intros Hkey.
  assert (Hbad : tag_verifies key (firstn 12 encrypted) (skipn 12 encrypted) = false ->
                 exists e, decrypt encrypted keyBase64 = Throw e /\ is_decryption_error e).
  { intros Htag. exists OperationError. split; [|reflexivity].
    rewrite (decrypt_unfold _ _ _ Hkey). unfold subtle_decrypt. rewrite Htag.
    destruct (_ <? _)%nat; reflexivity. }
  split; [|split; [exact Hbad|split]].
  - intros Hshort. exists OperationError. split; [|reflexivity].
    rewrite (decrypt_unfold _ _ _ Hkey). unfold subtle_decrypt.
    replace (length (skipn 12 encrypted) <? TAG_LENGTH)%nat with true; [reflexivity|].
    symmetry. apply Nat.ltb_lt. rewrite length_skipn. unfold TAG_LENGTH. lia.
  - intros plaintext otherBase64 other pos Hother Henc c Hdiff.
    apply Hbad.
    rewrite (encrypt_unfold _ _ _ _ Hother) in Henc.
    assert (Hblob : encrypted
                    = nonce_at pos ++ subtle_encrypt other (nonce_at pos) (Utf8.encode plaintext))
      by congruence.
    rewrite Hblob. clear Henc Hblob Hbad.
    pose proof (length_nonce_at pos) as Hiv.
    rewrite <- Hiv. rewrite firstn_prefix, skipn_prefix.
    unfold tag_verifies, subtle_encrypt. fold c.
    rewrite length_app, length_tag_bytes.
    replace (length c + TAG_LENGTH - TAG_LENGTH)%nat with (length c) by lia.
    rewrite firstn_prefix, skipn_prefix.
    destruct (bytes_eqb _ _) eqn:E; [|reflexivity].
    apply bytes_eqb_eq in E. congruence.
  - intros iv c forged Hiv Hforged Hdiff Hblob.
    apply Hbad. rewrite Hblob. clear Hblob Hbad.
    rewrite <- Hiv, firstn_prefix, skipn_prefix.
    unfold tag_verifies. rewrite length_app, Hforged.
    replace (length c + 16 - TAG_LENGTH)%nat with (length c)
      by (unfold TAG_LENGTH; lia).
    rewrite firstn_prefix, skipn_prefix.
    destruct (bytes_eqb _ _) eqn:E; [|reflexivity].
    apply bytes_eqb_eq in E. contradiction.
Qed.

End CipherFacts.

(** C8 on the demonstration platform, for the plaintext [hi]. *)
Lemma encrypt_nonce_then_ciphertext_demo :
  let iv := @nonce_at Demo.crypto 0 in
  let sealed := @subtle_encrypt Demo.crypto (mkKey Demo.key32) iv (Utf8.encode (js "hi")) in
  @getRandomValues Demo.crypto IV_LENGTH 0%nat = (Ok iv, 12%nat)
  /\ length iv = 12%nat
  /\ @encrypt Demo.crypto (js "hi") Demo.key32_hex 0%nat = (Ok (iv ++ sealed), 12%nat)
  /\ firstn 12 (iv ++ sealed) = iv
  /\ skipn 12 (iv ++ sealed) = sealed
  /\ length (iv ++ sealed) = (12 + length sealed)%nat
  /\ length sealed = (length (Utf8.encode (js "hi")) + 16)%nat.
Proof.
  apply (@encrypt_nonce_then_ciphertext Demo.crypto (js "hi") Demo.key32_hex
           (mkKey Demo.key32) 0%nat).
  exact importKey_demo.
Defined.

(** C7 on the demonstration platform, for a blob of 3 octets. *)
Lemma decrypt_rejects_demo :
  exists e, @decrypt Demo.crypto [1; 2; 3] Demo.key32_hex = Throw e /\ is_decryption_error e.
Proof.
  apply (proj1 (@decrypt_rejects Demo.crypto [1; 2; 3] Demo.key32_hex (mkKey Demo.key32)
                  importKey_demo)).
  simpl. lia.
Defined.

(** ** The admin-API CORS origin callback *)

Section CorsFacts.
Context `{UrlParser}.

Lemma isLocalhostOrigin_true (origin : jsstring) :
  isLocalhostOrigin origin = true
  <-> exists url, new_URL origin = Some url
        /\ (url_hostname url = js "localhost" \/ url_hostname url = js "127.0.0.1").
Proof.
  unfold isLocalhostOrigin, originHostname.
  destruct (new_URL origin) as [url|]; split.
  - intros Hloc. exists url. split; [reflexivity|].
    apply orb_true_iff in Hloc. destruct Hloc as [E | E];
      apply jsstring_eqb_eq in E; auto.
  - intros [url' [Hurl Hhost]]. injection Hurl as <-.
    apply orb_true_iff. destruct Hhost as [-> | ->]; [left | right]; reflexivity.
  - discriminate.
  - intros [url [Hurl _]]. discriminate Hurl.
Qed.

Lemma allowedOrigins_spec (env : Env) (origin : jsstring) :
  In origin (allowedOrigins env)
  <-> exists configured url,
        ADMIN_UI_URL env = Some configured /\ configured <> []
        /\ new_URL configured = Some url /\ url_origin url = origin.
Proof.
  unfold allowedOrigins. destruct (ADMIN_UI_URL env) as [[| c u]|]; split.
  - intros [].
  - intros [configured [url [Hcfg [Hne _]]]]. congruence.
  - destruct (new_URL (c :: u)) as [url|] eqn:Hurl; [|intros []].
    intros [<- | []]. exists (c :: u), url. repeat split; auto. discriminate.
  - intros [configured [url [Hcfg [_ [Hurl <-]]]]].
    injection Hcfg as <-. rewrite Hurl. left. reflexivity.
  - intros [].
  - intros [configured [url [Hcfg _]]]. discriminate Hcfg.
Qed.

Lemma existsb_jsstring_eqb (x : jsstring) (xs : list jsstring) :
  existsb (jsstring_eqb x) xs = true <-> In x xs.
Proof.
  rewrite existsb_exists. split.
  - intros [y [Hin E]]. apply jsstring_eqb_eq in E. subst. exact Hin.
  - intros Hin. exists x. split; [exact Hin | apply jsstring_eqb_refl].
Qed.

(** C10. The origin callback of the admin API answers [*] to a request
    with no [Origin] header; it echoes every origin whose URL host name
    is [localhost] or [127.0.0.1], whatever [ADMIN_UI_URL] is; it echoes
    the origin of a configured [ADMIN_UI_URL] that parses; and it
    answers null to every other origin, so to every origin that is not
    local when [ADMIN_UI_URL] is unset, empty or does not parse. *)
Theorem adminCors_origin_policy (env : Env) :
  adminCorsAllowOrigin env None = Some (js "*")
  /\ (forall origin url,
        origin <> [] -> new_URL origin = Some url ->
        url_hostname url = js "localhost" \/ url_hostname url = js "127.0.0.1" ->
        adminCorsAllowOrigin env (Some origin) = Some origin)
  /\ (forall configured url,
        ADMIN_UI_URL env = Some configured -> configured <> [] ->
        new_URL configured = Some url -> url_origin url <> [] ->
        adminCorsAllowOrigin env (Some (url_origin url)) = Some (url_origin url))
  /\ (forall origin,
        origin <> [] ->
        (forall url, new_URL origin = Some url ->
           url_hostname url <> js "localhost" /\ url_hostname url <> js "127.0.0.1") ->
        (forall configured url,
           ADMIN_UI_URL env = Some configured -> configured <> [] ->
           new_URL configured = Some url -> url_origin url <> origin) ->
        adminCorsAllowOrigin env (Some origin) = None)
  /\ (forall origin,
        origin <> [] ->
        (forall url, new_URL origin = Some url ->
           url_hostname url <> js "localhost" /\ url_hostname url <> js "127.0.0.1") ->
        ADMIN_UI_URL env = None \/ ADMIN_UI_URL env = Some []
        \/ (exists configured, ADMIN_UI_URL env = Some configured
                               /\ new_URL configured = None) ->
        adminCorsAllowOrigin env (Some origin) = None).
Proof.
  assert (Hreject : forall origin,
             origin <> [] ->
             (forall url, new_URL origin = Some url ->
                url_hostname url <> js "localhost" /\ url_hostname url <> js "127.0.0.1") ->
             ~ In origin (allowedOrigins env) ->
             adminCorsAllowOrigin env (Some origin) = None).
  { intros origin Hne Hhost Hnot. unfold adminCorsAllowOrigin, corsOrigin.
    destruct origin as [| c r]; [congruence|].
    destruct (isLocalhostOrigin (c :: r)) eqn:Hloc.
    - apply isLocalhostOrigin_true in Hloc. destruct Hloc as [url [Hurl Hor]].
      destruct (Hhost url Hurl) as [H1 H2]. destruct Hor; contradiction.
    - destruct (existsb _ _) eqn:Hex; [|reflexivity].
      apply existsb_jsstring_eqb in Hex. contradiction. }
  split; [reflexivity|]. split; [|split; [|split]].
  - intros origin url Hne Hurl Hhost. unfold adminCorsAllowOrigin, corsOrigin.
    destruct origin as [| c r]; [congruence|].
    replace (isLocalhostOrigin (c :: r)) with true; [reflexivity|].
    symmetry. apply isLocalhostOrigin_true. exists url. split; assumption.
  - intros configured url Hcfg Hne Hurl Hor. unfold adminCorsAllowOrigin, corsOrigin.
    destruct (url_origin url) as [| c r] eqn:Eo; [congruence|].
    destruct (isLocalhostOrigin (c :: r)); [reflexivity|].
    replace (existsb _ _) with true; [reflexivity|].
    symmetry. apply existsb_jsstring_eqb, allowedOrigins_spec.
    exists configured, url. repeat split; assumption.
  - intros origin Hne Hhost Hcfg. apply Hreject; [assumption | assumption|].
    intros Hin. apply allowedOrigins_spec in Hin.
    destruct Hin as [configured [url [H1 [H2 [H3 H4]]]]].
    exact (Hcfg configured url H1 H2 H3 H4).
  - intros origin Hne Hhost Hcfg. apply Hreject; [assumption | assumption|].
    intros Hin. apply allowedOrigins_spec in Hin.
    destruct Hin as [configured [url [H1 [H2 [H3 _]]]]].
    destruct Hcfg as [E | [E | [u [E Hnone]]]]; congruence.
Qed.

End CorsFacts.

Example cors_no_origin_header :
  @adminCorsAllowOrigin Demo.urls (mkEnv None) None = Some (js "*").
Proof. reflexivity. Qed.

Example cors_localhost_dev_server :
  @adminCorsAllowOrigin Demo.urls (mkEnv None) (Some (js "http://localhost:5173"))
  = Some (js "http://localhost:5173").
Proof. vm_compute. reflexivity. Qed.

Example cors_configured_admin_ui :
  @adminCorsAllowOrigin Demo.urls (mkEnv (Some (js "https://admin.example.com/ui")))
    (Some (js "https://admin.example.com"))
  = Some (js "https://admin.example.com").
Proof. vm_compute. reflexivity. Qed.

Example cors_foreign_origin :
  @adminCorsAllowOrigin Demo.urls (mkEnv (Some (js "https://admin.example.com/ui")))
    (Some (js "https://evil.example"))
  = None.
Proof. vm_compute. reflexivity. Qed.

(** ** Tool scoping and the per-client limit *)

Lemma includes_In (xs : list jsstring) (x : jsstring) :
  includes xs x = true <-> In x xs.
Proof. apply existsb_jsstring_eqb. Qed.

Lemma scope_message_contains (tool : jsstring) (allowed : list jsstring) :
  contains (scope_message tool allowed) (js "not allowed")
  /\ contains (scope_message tool allowed) (join_comma allowed).
Proof.
  unfold contains, scope_message. split.
  - exists (js "Tool '" ++ tool ++ js "' is "),
      (js " for this token. Allowed tools: " ++ join_comma allowed).
    rewrite <- !app_assoc. reflexivity.
  - exists (js "Tool '" ++ tool ++ js "' is not allowed for this token. Allowed tools: "), [].
    rewrite app_nil_r, <- !app_assoc. reflexivity.
Qed.

(** C2. An identity without [allowedTools] may call every tool.  With
    [allowedTools] present a tool is allowed exactly when its name is an
    element of the list, compared code unit by code unit; a rejection is
    a [ScopeError] that carries the requested name and the whole list,
    and whose message contains [not allowed] and the list.  With
    [allowedTools = [tavily_search]], [brave_web_search] is rejected so,
    and so is [Tavily_Search]. *)
Theorem authorizeTool_scoping (identity : Identity) (toolName : jsstring) :
  (allowedTools identity = None -> authorizeTool identity toolName = Allowed)
  /\ (forall allowed,
        allowedTools identity = Some allowed ->
        (authorizeTool identity toolName = Allowed <-> In toolName allowed)
        /\ (~ In toolName allowed ->
            authorizeTool identity toolName
            = ScopeError (scope_message toolName allowed)
                         (mkScopeErrorData toolName allowed)
            /\ contains (scope_message toolName allowed) (js "not allowed")
            /\ contains (scope_message toolName allowed) (join_comma allowed)))
  /\ (let token := mkIdentity (js "tok_123") (Some [js "tavily_search"]) None in
      authorizeTool token (js "tavily_search") = Allowed
      /\ authorizeTool token (js "Tavily_Search") <> Allowed
      /\ authorizeTool token (js "brave_web_search")
         = ScopeError
             (js "Tool 'brave_web_search' is not allowed for this token. Allowed tools: tavily_search")
             (mkScopeErrorData (js "brave_web_search") [js "tavily_search"])).
Proof.
  split; [|split].
  - intros Hnone. unfold authorizeTool. rewrite Hnone. reflexivity.
  - intros allowed Hsome. unfold authorizeTool. rewrite Hsome.
    destruct (includes allowed toolName) eqn:Hinc.
    + apply includes_In in Hinc. split; [tauto|]. intros Hnot. contradiction.
    + assert (Hnot : ~ In toolName allowed).
      { intros Hin. apply includes_In in Hin. congruence. }
      split; [split; [discriminate | contradiction]|].
      intros _. split; [reflexivity | apply scope_message_contains].
  - cbv zeta. repeat split; try reflexivity. vm_compute. discriminate.
Qed.

(** C3. The per-client limit is the identity's [rateLimit] when it has
    one and the global default otherwise: 60 for a token without
    override under a default of 60, and 100 for a token with override
    100 under any default. *)
Theorem effectiveClientLimit_override (identity : Identity) (defaultLimit : Z) :
  (forall limit, rateLimit identity = Some limit ->
                 effectiveClientLimit identity defaultLimit = limit)
  /\ (rateLimit identity = None ->
      effectiveClientLimit identity defaultLimit = defaultLimit)
  /\ effectiveClientLimit (mkIdentity (clientTokenId identity) (allowedTools identity) None) 60 = 60
  /\ effectiveClientLimit (mkIdentity (clientTokenId identity) (allowedTools identity) (Some 100))
       defaultLimit = 100.
Proof.
  unfold effectiveClientLimit. repeat split.
  - intros limit Hsome. rewrite Hsome. reflexivity.
  - intros Hnone. rewrite Hnone. reflexivity.
Qed.

(** ** UTF-8: decoding undoes encoding *)

Module Utf8Facts.
Import Utf8.

Lemma run_cons (st : state) (b : Z) (r : bytes) :
  run st (b :: r) = fst (step st b) ++ run (snd (step st b)) r.
Proof. simpl. destruct (step st b). reflexivity. Qed.

Lemma lead_1 (b : Z) : 0 <= b <= 0x7F -> lead b = ([b], initial).
Proof. intros Hb. unfold lead. decide_tests. reflexivity. Qed.

Lemma lead_2 (b : Z) :
  0xC2 <= b <= 0xDF -> lead b = ([], mkState (b mod 32) 0 1 0x80 0xBF).
Proof. intros Hb. unfold lead. decide_tests. reflexivity. Qed.

Lemma lead_3 (b : Z) :
  0xE0 <= b <= 0xEF ->
  lead b = ([], mkState (b mod 16) 0 2
                        (if b =? 0xE0 then 0xA0 else 0x80)
                        (if b =? 0xED then 0x9F else 0xBF)).
Proof.
  intros Hb. unfold lead.
  destruct (Z.leb_spec 0 b); [|lia].
  destruct (Z.leb_spec b 0x7F); [lia|].
  destruct (Z.leb_spec 0xC2 b); [|lia].
  destruct (Z.leb_spec b 0xDF); [lia|].
  destruct (Z.leb_spec 0xE0 b); [|lia].
  destruct (Z.leb_spec b 0xEF); [|lia].
  reflexivity.
Qed.

Lemma lead_4 (b : Z) :
  0xF0 <= b <= 0xF4 ->
  lead b = ([], mkState (b mod 8) 0 3
                        (if b =? 0xF0 then 0x90 else 0x80)
                        (if b =? 0xF4 then 0x8F else 0xBF)).
Proof.
  intros Hb. unfold lead.
  destruct (Z.leb_spec 0 b); [|lia].
  destruct (Z.leb_spec b 0x7F); [lia|].
  destruct (Z.leb_spec 0xC2 b); [|lia].
  destruct (Z.leb_spec b 0xDF); [lia|].
  destruct (Z.leb_spec 0xE0 b); [|lia].
  destruct (Z.leb_spec b 0xEF); [lia|].
  destruct (Z.leb_spec 0xF0 b); [|lia].
  destruct (Z.leb_spec b 0xF4); [|lia].
  reflexivity.
Qed.

(** A continuation octet inside the bounds of the state. *)
Lemma step_continue (cp : Z) (seen needed : nat) (lo hi b : Z) :
  lo <= b <= hi ->
  step (mkState cp seen (S needed) lo hi) b
  = if (seen =? needed)%nat then ([cp * 64 + b mod 64], initial)
    else ([], mkState (cp * 64 + b mod 64) (S seen) (S needed) 0x80 0xBF).
Proof.
  intros Hb. unfold step. simpl.
  destruct (Z.ltb_spec b lo); [lia|].
  destruct (Z.ltb_spec hi b); [lia|].
  reflexivity.
Qed.

Lemma run_encode_scalar (cp : Z) (rest : bytes) :
  is_scalar cp ->
  run initial (encode_scalar cp ++ rest) = cp :: run initial rest.
Proof.
  intros Hcp. unfold is_scalar in Hcp. unfold encode_scalar.
  destruct (Z.ltb_spec cp 0x80) as [H1 | H1].
  { cbn [app]. rewrite run_cons. change (step initial cp) with (lead cp).
    rewrite lead_1 by lia. reflexivity. }
  destruct (Z.ltb_spec cp 0x800) as [H2 | H2].
  { cbn [app]. rewrite run_cons. change (step initial ?b) with (lead b).
    rewrite lead_2 by arith. cbn [fst snd app].
    rewrite run_cons, step_continue by arith. cbn [Nat.eqb fst snd app].
    f_equal. arith. }
  destruct (Z.ltb_spec cp 0x10000) as [H3 | H3].
  { cbn [app]. rewrite run_cons. change (step initial ?b) with (lead b).
    rewrite lead_3 by arith. cbn [fst snd app].
    rewrite run_cons, step_continue.
    2:{ destruct (Z.eqb_spec (0xE0 + cp / 4096) 0xE0);
        destruct (Z.eqb_spec (0xE0 + cp / 4096) 0xED); arith. }
    cbn [Nat.eqb fst snd app].
    rewrite run_cons, step_continue by arith. cbn [Nat.eqb fst snd app].
    f_equal. arith. }
  cbn [app]. rewrite run_cons. change (step initial ?b) with (lead b).
  rewrite lead_4 by arith. cbn [fst snd app].
  rewrite run_cons, step_continue.
  2:{ destruct (Z.eqb_spec (0xF0 + cp / 262144) 0xF0);
      destruct (Z.eqb_spec (0xF0 + cp / 262144) 0xF4); arith. }
  cbn [Nat.eqb fst snd app].
  rewrite run_cons, step_continue by arith. cbn [Nat.eqb fst snd app].
  rewrite run_cons, step_continue by arith. cbn [Nat.eqb fst snd app].
  f_equal. arith.
Qed.

Lemma run_encode_scalars (cps : list Z) :
  Forall is_scalar cps -> run initial (flat_map encode_scalar cps) = cps.
Proof.
  induction 1 as [| cp cps Hcp _ IH]; [reflexivity|].
  cbn [flat_map]. rewrite run_encode_scalar by exact Hcp. rewrite IH. reflexivity.
Qed.

(** Induction over a well-formed string, one scalar value at a time. *)
Lemma well_formed_induction (P : jsstring -> Prop) :
  P [] ->
  (forall c r, is_high c = false -> is_bmp_scalar c = true ->
               well_formed r = true -> P r -> P (c :: r)) ->
  (forall c d r, is_high c = true -> is_low d = true ->
                 well_formed r = true -> P r -> P (c :: d :: r)) ->
  forall s, well_formed s = true -> P s.
Proof.
  intros Hnil Hbmp Hpair s.
  assert (Hlen : forall n s, (length s <= n)%nat -> well_formed s = true -> P s).
  { clear s. induction n as [| n IH]; intros s Hle Hwf.
    - destruct s; [exact Hnil | simpl in Hle; lia].
    - destruct s as [| c r]; [exact Hnil|].
      simpl in Hwf, Hle. destruct (is_high c) eqn:Hc.
      + destruct r as [| d r']; [discriminate|].
        apply andb_true_iff in Hwf. destruct Hwf as [Hd Hr].
        apply Hpair; auto. apply IH; [simpl in Hle; lia | exact Hr].
      + apply andb_true_iff in Hwf. destruct Hwf as [Hs Hr].
        apply Hbmp; auto. apply IH; [lia | exact Hr]. }
  exact (Hlen (length s) s (le_n _)).
Qed.

Lemma is_high_range (c : Z) : is_high c = true <-> 0xD800 <= c <= 0xDBFF.
Proof. unfold is_high. rewrite andb_true_iff, !Z.leb_le. tauto. Qed.

Lemma is_low_range (c : Z) : is_low c = true <-> 0xDC00 <= c <= 0xDFFF.
Proof. unfold is_low. rewrite andb_true_iff, !Z.leb_le. tauto. Qed.

Lemma is_bmp_scalar_range (c : Z) :
  is_bmp_scalar c = true <-> 0 <= c < 0xD800 \/ 0xE000 <= c < 0x10000.
Proof.
  unfold is_bmp_scalar.
  rewrite orb_true_iff, !andb_true_iff, !Z.leb_le, !Z.ltb_lt. tauto.
Qed.

Lemma is_low_bmp_scalar (c : Z) : is_bmp_scalar c = true -> is_low c = false.
Proof.
  intros Hc. apply is_bmp_scalar_range in Hc.
  destruct (is_low c) eqn:E; [|reflexivity]. apply is_low_range in E. lia.
Qed.

Lemma scalar_values_bmp (c : Z) (r : jsstring) :
  is_high c = false -> is_bmp_scalar c = true ->
  scalar_values (c :: r) = c :: scalar_values r.
Proof.
  intros Hh Hs. cbn [scalar_values]. rewrite Hh, (is_low_bmp_scalar c Hs). reflexivity.
Qed.

Lemma scalar_values_pair (c d : Z) (r : jsstring) :
  is_high c = true -> is_low d = true ->
  scalar_values (c :: d :: r)
  = (0x10000 + (c - 0xD800) * 0x400 + (d - 0xDC00)) :: scalar_values r.
Proof. intros Hh Hl. cbn [scalar_values]. rewrite Hh, Hl. reflexivity. Qed.

(** The scalar values of a well-formed string are scalar values. *)
Lemma scalar_values_scalar (s : jsstring) :
  well_formed s = true -> Forall is_scalar (scalar_values s).
Proof.
  apply well_formed_induction with (P := fun s => Forall is_scalar (scalar_values s)).
  - constructor.
  - intros c r Hh Hs _ IH. rewrite scalar_values_bmp by assumption.
    constructor; [|exact IH]. apply is_bmp_scalar_range in Hs. unfold is_scalar. lia.
  - intros c d r Hh Hl _ IH. rewrite scalar_values_pair by assumption.
    constructor; [|exact IH].
    apply is_high_range in Hh. apply is_low_range in Hl. unfold is_scalar. lia.
Qed.

(** Writing them back as UTF-16 gives the string again. *)
Lemma code_units_scalar_values (s : jsstring) :
  well_formed s = true -> flat_map code_units (scalar_values s) = s.
Proof.
  apply well_formed_induction
    with (P := fun s => flat_map code_units (scalar_values s) = s).
  - reflexivity.
  - intros c r Hh Hs _ IH. rewrite scalar_values_bmp by assumption.
    cbn [flat_map]. rewrite IH. unfold code_units.
    apply is_bmp_scalar_range in Hs.
    destruct (Z.ltb_spec c 0x10000); [reflexivity | lia].
  - intros c d r Hh Hl _ IH. rewrite scalar_values_pair by assumption.
    cbn [flat_map]. rewrite IH. unfold code_units.
    apply is_high_range in Hh. apply is_low_range in Hl.
    destruct (Z.ltb_spec (0x10000 + (c - 0xD800) * 0x400 + (d - 0xDC00)) 0x10000);
      [lia|].
    cbn [app]. f_equal; [|f_equal]; arith.
Qed.

(** Without a leading U+FEFF in the string there is none to drop. *)
Lemma strip_bom_scalar_values (s : jsstring) :
  well_formed s = true -> startsWith1 s BOM = false ->
  strip_bom (scalar_values s) = scalar_values s.
Proof.
  intros Hwf Hbom. destruct s as [| c r]; [reflexivity|].
  simpl in Hwf. destruct (is_high c) eqn:Hh.
  - destruct r as [| d r']; [discriminate|].
    apply andb_true_iff in Hwf. destruct Hwf as [Hl _].
    rewrite scalar_values_pair by assumption. unfold strip_bom.
    apply is_high_range in Hh. apply is_low_range in Hl.
    destruct (Z.eqb_spec (0x10000 + (c - 0xD800) * 0x400 + (d - 0xDC00)) BOM) as [E | E];
      [unfold BOM in E; lia | reflexivity].
  - apply andb_true_iff in Hwf. destruct Hwf as [Hs _].
    rewrite scalar_values_bmp by assumption. unfold strip_bom.
    simpl in Hbom. rewrite Hbom. reflexivity.
Qed.

(** [TextDecoder] undoes [TextEncoder] on a well-formed string that
    does not start with U+FEFF. *)
Lemma decode_encode (s : jsstring) :
  well_formed s = true -> startsWith1 s BOM = false ->
  decode (encode s) = s.
Proof.
  intros Hwf Hbom. unfold decode, encode.
  rewrite run_encode_scalars by (apply scalar_values_scalar; exact Hwf).
  rewrite strip_bom_scalar_values by assumption.
  apply code_units_scalar_values. exact Hwf.
Qed.

(** A leading U+FEFF does not come back. *)
Lemma decode_encode_leading_bom (s : jsstring) :
  well_formed s = true -> decode (encode (BOM :: s)) = s.
Proof.
  intros Hwf. unfold decode, encode.
  assert (Hwf' : well_formed (BOM :: s) = true) by (simpl; exact Hwf).
  rewrite run_encode_scalars by (apply scalar_values_scalar; exact Hwf').
  rewrite scalar_values_bmp by reflexivity.
  unfold strip_bom. rewrite Z.eqb_refl.
  apply code_units_scalar_values. exact Hwf.
Qed.

End Utf8Facts.

(** ** [decrypt] after [encrypt] *)

Section RoundTrip.
Context `{WebCrypto}.

Lemma decrypt_encrypt_text (plaintext keyBase64 : jsstring) (key : CryptoKey) (pos : nat) :
  importKey keyBase64 = Ok key ->
  exists encrypted,
    encrypt plaintext keyBase64 pos = (Ok encrypted, (pos + 12)%nat)
    /\ decrypt encrypted keyBase64 = Ok (Utf8.decode (Utf8.encode plaintext)).
Proof.
  intros Hkey. eexists. split; [apply encrypt_unfold; exact Hkey|].
  rewrite (decrypt_unfold _ _ _ Hkey).
  rewrite <- (length_nonce_at pos), firstn_prefix, skipn_prefix.
  rewrite subtle_decrypt_encrypt. reflexivity.
Qed.

(** C1, as the code has it.  For every key material that decodes to a
    key and every plaintext that is well-formed UTF-16 and does not
    start with U+FEFF (the empty string and strings with characters of
    two, three and four octets among them), [encrypt] succeeds and
    [decrypt] of its result under the same key material returns the
    plaintext exactly. *)
Theorem decrypt_encrypt_roundtrip
    (plaintext keyBase64 : jsstring) (keyBytes : bytes) (pos : nat) :
  decodeAes256KeyBytes keyBase64 = Ok keyBytes ->
  Utf8.well_formed plaintext = true ->
  startsWith1 plaintext Utf8.BOM = false ->
  exists encrypted,
    encrypt plaintext keyBase64 pos = (Ok encrypted, (pos + 12)%nat)
    /\ decrypt encrypted keyBase64 = Ok plaintext.
Proof.
  intros Hkey Hwf Hbom.
  assert (Himport : importKey keyBase64 = Ok (mkKey keyBytes))
    by (unfold importKey; rewrite Hkey; reflexivity).
  destruct (decrypt_encrypt_text plaintext keyBase64 _ pos Himport)
    as [encrypted [Henc Hdec]].
  exists encrypted. split; [exact Henc|].
  rewrite Hdec, Utf8Facts.decode_encode by assumption. reflexivity.
Qed.

(** A plaintext that starts with U+FEFF comes back without it. *)
Lemma decrypt_encrypt_leading_bom
    (plaintext keyBase64 : jsstring) (keyBytes : bytes) (pos : nat) :
  decodeAes256KeyBytes keyBase64 = Ok keyBytes ->
  Utf8.well_formed plaintext = true ->
  exists encrypted,
    encrypt (Utf8.BOM :: plaintext) keyBase64 pos = (Ok encrypted, (pos + 12)%nat)
    /\ decrypt encrypted keyBase64 = Ok plaintext.
Proof.
  intros Hkey Hwf.
  assert (Himport : importKey keyBase64 = Ok (mkKey keyBytes))
    by (unfold importKey; rewrite Hkey; reflexivity).
  destruct (decrypt_encrypt_text (Utf8.BOM :: plaintext) keyBase64 _ pos Himport)
    as [encrypted [Henc Hdec]].
  exists encrypted. split; [exact Henc|].
  rewrite Hdec, Utf8Facts.decode_encode_leading_bom by assumption. reflexivity.
Qed.

End RoundTrip.

Lemma decode_demo_key : decodeAes256KeyBytes Demo.key32_hex = Ok Demo.key32.
Proof. vm_compute. reflexivity. Qed.

(** C1 on the demonstration platform: a plaintext with characters of
    one, two, three and four octets. *)
Lemma decrypt_encrypt_roundtrip_demo :
  exists encrypted,
    @encrypt Demo.crypto (js "k=" ++ [0xE9; 0x20AC; 0xD83D; 0xDE00]) Demo.key32_hex 0%nat
    = (Ok encrypted, 12%nat)
    /\ @decrypt Demo.crypto encrypted Demo.key32_hex
       = Ok (js "k=" ++ [0xE9; 0x20AC; 0xD83D; 0xDE00]).
Proof.
  apply (@decrypt_encrypt_roundtrip Demo.crypto
           (js "k=" ++ [0xE9; 0x20AC; 0xD83D; 0xDE00]) Demo.key32_hex Demo.key32 0%nat
           decode_demo_key); reflexivity.
Defined.

(** C1 as stated fails: the plaintext U+FEFF [hi] is decrypted to [hi],
    and the lone surrogate U+D83D to U+FFFD. *)
Lemma decrypt_encrypt_not_every_string :
  ~ (forall (W : WebCrypto) (plaintext keyBase64 : jsstring) (keyBytes encrypted : bytes)
            (pos pos' : nat),
        decodeAes256KeyBytes keyBase64 = Ok keyBytes ->
        @encrypt W plaintext keyBase64 pos = (Ok encrypted, pos') ->
        @decrypt W encrypted keyBase64 = Ok plaintext)
  /\ (exists encrypted,
        @encrypt Demo.crypto (0xFEFF :: js "hi") Demo.key32_hex 0%nat = (Ok encrypted, 12%nat)
        /\ @decrypt Demo.crypto encrypted Demo.key32_hex = Ok (js "hi"))
  /\ (exists encrypted,
        @encrypt Demo.crypto [0xD83D] Demo.key32_hex 0%nat = (Ok encrypted, 12%nat)
        /\ @decrypt Demo.crypto encrypted Demo.key32_hex = Ok [0xFFFD]).
Proof.
  assert (Hbom : exists encrypted,
             @encrypt Demo.crypto (0xFEFF :: js "hi") Demo.key32_hex 0%nat
             = (Ok encrypted, 12%nat)
             /\ @decrypt Demo.crypto encrypted Demo.key32_hex = Ok (js "hi")).
  { apply (@decrypt_encrypt_leading_bom Demo.crypto (js "hi") Demo.key32_hex Demo.key32 0%nat
             decode_demo_key). reflexivity. }
  split; [|split; [exact Hbom|]].
  - intros Hclaim. destruct Hbom as [encrypted [Henc Hdec]].
    pose proof (Hclaim Demo.crypto _ _ _ _ _ _ decode_demo_key Henc) as Hsame.
    rewrite Hdec in Hsame. discriminate Hsame.
  - eexists. split; [vm_compute; reflexivity|]. vm_compute. reflexivity.
Qed.

(** ** White space and quotes around the key material *)

Lemma strip_spaces_app (a b : jsstring) :
  strip_spaces (a ++ b) = strip_spaces a ++ strip_spaces b.
Proof. apply filter_app. Qed.

Lemma strip_spaces_rev (s : jsstring) : strip_spaces (rev s) = rev (strip_spaces s).
Proof. apply filter_rev. Qed.

Lemma strip_spaces_trimStart (s : jsstring) :
  strip_spaces (trimStart s) = strip_spaces s.
Proof.
  induction s as [| c r IH]; [reflexivity|].
  simpl. destruct (is_space c) eqn:E; simpl; [exact IH | rewrite E; reflexivity].
Qed.

Lemma strip_spaces_trim (s : jsstring) : strip_spaces (trim s) = strip_spaces s.
Proof.
  unfold trim, trimEnd.
  rewrite strip_spaces_rev, strip_spaces_trimStart, strip_spaces_rev, rev_involutive.
  apply strip_spaces_trimStart.
Qed.

Lemma trimStart_head (s : jsstring) (c : Z) (r : jsstring) :
  trimStart s = c :: r -> is_space c = false.
Proof.
  induction s as [| x s IH]; simpl; [discriminate|].
  destruct (is_space x) eqn:E; [exact IH|]. intros Heq. congruence.
Qed.

Lemma trimStart_snoc (l : jsstring) (c : Z) :
  is_space c = false -> trimStart (l ++ [c]) = trimStart l ++ [c].
Proof.
  intros Hc. induction l as [| x l IH]; simpl; [rewrite Hc; reflexivity|].
  destruct (is_space x); [exact IH | reflexivity].
Qed.

Lemma trimEnd_cons (c : Z) (r : jsstring) :
  is_space c = false -> trimEnd (c :: r) = c :: trimEnd r.
Proof.
  intros Hc. unfold trimEnd. simpl rev.
  rewrite trimStart_snoc by exact Hc. rewrite rev_app_distr. reflexivity.
Qed.

(** A trimmed string is empty, or one code unit that is not white
    space, or a string between two such code units. *)
Lemma trim_shape (s : jsstring) :
  trim s = []
  \/ (exists c, trim s = [c] /\ is_space c = false)
  \/ (exists c mid d,
        trim s = c :: mid ++ [d] /\ is_space c = false /\ is_space d = false).
Proof.
  unfold trim. destruct (trimStart s) as [| c r] eqn:Hstart; [left; reflexivity|].
  right. pose proof (trimStart_head _ _ _ Hstart) as Hc.
  rewrite trimEnd_cons by exact Hc.
  unfold trimEnd. destruct (trimStart (rev r)) as [| d r'] eqn:Hend.
  - left. exists c. split; [reflexivity | exact Hc].
  - right. exists c, (rev r'), d. simpl rev.
    repeat split; [exact Hc | exact (trimStart_head _ _ _ Hend)].
Qed.

Lemma is_quoted_one (c : Z) :
  is_quoted [c] = (c =? DQUOTE) || (c =? SQUOTE).
Proof.
  unfold is_quoted, endsWith1, startsWith1. simpl rev.
  destruct (c =? DQUOTE), (c =? SQUOTE); reflexivity.
Qed.

Lemma is_quoted_ends (c d : Z) (mid : jsstring) :
  is_quoted (c :: mid ++ [d])
  = (c =? DQUOTE) && (d =? DQUOTE) || (c =? SQUOTE) && (d =? SQUOTE).
Proof.
  unfold is_quoted, endsWith1, startsWith1.
  change (c :: mid ++ [d]) with ((c :: mid) ++ [d]). rewrite rev_unit. reflexivity.
Qed.

Lemma slice_1_m1_ends (c d : Z) (mid : jsstring) :
  slice_1_m1 (c :: mid ++ [d]) = mid.
Proof. unfold slice_1_m1. simpl tl. apply removelast_last. Qed.

(** The result depends on the key material only through what is left
    of it when all white space is deleted. *)
Lemma decode_by_stripped (keyEncoded : jsstring) :
  decodeAes256KeyBytes keyEncoded = decode_stripped (strip_spaces keyEncoded).
Proof.
  unfold decodeAes256KeyBytes. rewrite <- (strip_spaces_trim keyEncoded).
  destruct (trim_shape keyEncoded)
    as [-> | [[c [-> Hc]] | [c [mid [d [-> [Hc Hd]]]]]]].
  - reflexivity.
  - unfold strip_spaces at 2. simpl filter. rewrite Hc. simpl negb. cbv iota.
    unfold decode_stripped, unquote.
    destruct (is_quoted [c]); [reflexivity|].
    unfold strip_spaces. simpl filter. rewrite Hc. reflexivity.
  - assert (Hstrip : strip_spaces (c :: mid ++ [d]) = c :: strip_spaces mid ++ [d]).
    { change (c :: mid ++ [d]) with ([c] ++ mid ++ [d]).
      rewrite !strip_spaces_app. unfold strip_spaces at 1 3. simpl filter.
      rewrite Hc, Hd. reflexivity. }
    rewrite Hstrip. unfold decode_stripped, unquote.
    rewrite !is_quoted_ends.
    destruct ((c =? DQUOTE) && (d =? DQUOTE) || (c =? SQUOTE) && (d =? SQUOTE)).
    + rewrite !slice_1_m1_ends, strip_spaces_trim. reflexivity.
    + rewrite Hstrip. reflexivity.
Qed.

(** ** Hexadecimal spellings of a key *)

Lemma hex_value_digit_char (d : Z) :
  0 <= d < 16 -> hex_value (hex_digit_char d) = Some d.
Proof.
  intros Hd. unfold hex_digit_char, hex_value.
  destruct (Z.ltb_spec d 10).
  - destruct (Z.leb_spec 48 (48 + d)); [|lia].
    destruct (Z.leb_spec (48 + d) 57); [|lia].
    cbn [andb]. f_equal. lia.
  - destruct (Z.leb_spec 48 (87 + d)); [|lia].
    destruct (Z.leb_spec (87 + d) 57); [lia|].
    destruct (Z.leb_spec 97 (87 + d)); [|lia].
    destruct (Z.leb_spec (87 + d) 102); [|lia].
    cbn [andb]. f_equal. lia.
Qed.

Lemma byte_hex_digits (b : Z) :
  is_byte b -> byte_hex b = [hex_digit_char (b / 16); hex_digit_char (b mod 16)].
Proof.
  intros Hb. unfold is_byte in Hb. unfold byte_hex, byte_toString16, padStart2.
  destruct (Z.ltb_spec b 16); [|reflexivity].
  simpl. rewrite Z.div_small, Z.mod_small by lia. reflexivity.
Qed.

Lemma parseInt16_byte_hex (b : Z) :
  is_byte b -> to_uint8 (parseInt16 (byte_hex b)) = b.
Proof.
  intros Hb. rewrite (byte_hex_digits b Hb). unfold is_byte in Hb.
  assert (Hhi : 0 <= b / 16 < 16) by (Z.div_mod_to_equations; lia).
  assert (Hlo : 0 <= b mod 16 < 16) by (Z.div_mod_to_equations; lia).
  unfold parseInt16, is_hex_digit. cbn [parse_hex_digits].
  rewrite !hex_value_digit_char by assumption. cbn [to_uint8].
  Z.div_mod_to_equations; lia.
Qed.

(** The loop of the hexadecimal branch reads back the octets. *)
Lemma read_hex_pairs (bs : bytes) :
  Forall is_byte bs ->
  map (fun i => to_uint8 (parseInt16 (firstn 2 (skipn (i * 2) (hex_of_bytes bs)))))
      (seq 0 (length bs))
  = bs.
Proof.
  induction 1 as [| b bs Hb _ IH]; [reflexivity|].
  cbn [length seq map]. rewrite <- seq_shift, map_map. f_equal.
  - unfold hex_of_bytes. cbn [flat_map Nat.mul skipn].
    rewrite <- (parseInt16_byte_hex b Hb) at 2.
    rewrite (byte_hex_digits b Hb). reflexivity.
  - rewrite <- IH at 2. apply map_ext. intros i.
    unfold hex_of_bytes at 1. cbn [flat_map]. rewrite (byte_hex_digits b Hb).
    reflexivity.
Qed.

Lemma is_lower_hex_digit (c : Z) : is_lower_hex c = true -> is_hex_digit c = true.
Proof.
  unfold is_lower_hex, is_hex_digit, hex_value. intros Hc.
  destruct ((48 <=? c) && (c <=? 57)); [reflexivity|].
  destruct ((97 <=? c) && (c <=? 102)); [reflexivity | discriminate].
Qed.

Lemma forallb_impl {A} (f g : A -> bool) (l : list A) :
  (forall x, f x = true -> g x = true) -> forallb f l = true -> forallb g l = true.
Proof.
  intros Himp Hf. apply forallb_forall. intros x Hin.
  apply Himp. exact (proj1 (forallb_forall f l) Hf x Hin).
Qed.

Lemma hex64_hex_of_bytes (k : bytes) : is_key k -> hex64 (hex_of_bytes k) = true.
Proof.
  intros [Hlen Hbytes]. destruct (hex_of_bytes_shape k Hbytes) as [Hl Hhex].
  unfold hex64. rewrite Hl, Hlen. simpl.
  exact (forallb_impl _ _ _ is_lower_hex_digit Hhex).
Qed.

Lemma startsWith_0x_hex_of_bytes (k : bytes) :
  Forall is_byte k -> startsWith_0x (hex_of_bytes k) = false.
Proof.
  intros Hbytes. destruct Hbytes as [| b bs Hb _]; [reflexivity|].
  unfold hex_of_bytes. cbn [flat_map]. rewrite (byte_hex_digits b Hb).
  cbn [app startsWith_0x].
  assert (Hlo : is_lower_hex (hex_digit_char (b mod 16)) = true).
  { apply hex_digit_char_lower. unfold is_byte in Hb. Z.div_mod_to_equations; lia. }
  destruct (Z.eqb_spec (hex_digit_char (b mod 16)) 120) as [E | E];
    [|apply andb_false_r].
  rewrite E in Hlo. discriminate Hlo.
Qed.

Lemma decode_normalized_hex (k : bytes) :
  is_key k -> decode_normalized (hex_of_bytes k) = Ok k.
Proof.
  intros Hk. unfold decode_normalized, hexMatch.
  rewrite (hex64_hex_of_bytes k Hk). cbn [orb].
  unfold hex_key_bytes. destruct Hk as [Hlen Hbytes].
  rewrite (startsWith_0x_hex_of_bytes k Hbytes).
  rewrite <- Hlen, read_hex_pairs by exact Hbytes. reflexivity.
Qed.

Lemma decode_normalized_0x_hex (k : bytes) :
  is_key k -> decode_normalized (js "0x" ++ hex_of_bytes k) = Ok k.
Proof.
  intros Hk. unfold decode_normalized, hexMatch.
  change (js "0x" ++ hex_of_bytes k) with (48 :: 120 :: hex_of_bytes k).
  cbn [startsWith_0x skipn]. rewrite (hex64_hex_of_bytes k Hk).
  rewrite orb_true_r.
  unfold hex_key_bytes. cbn [startsWith_0x skipn]. destruct Hk as [Hlen Hbytes].
  change ((48 =? 48) && (120 =? 120)) with true. cbv iota.
  rewrite <- Hlen, read_hex_pairs by exact Hbytes. reflexivity.
Qed.

(** ** Base64 *)

Module Base64Facts.
Import Base64.

Lemma value_char (v : Z) : 0 <= v < 64 -> value (char v) = Some v.
Proof.
  intros Hv. unfold char.
  destruct (Z.ltb_spec v 26); [|destruct (Z.ltb_spec v 52);
    [|destruct (Z.ltb_spec v 62); [|destruct (Z.eqb_spec v 62)]]];
    unfold value; decide_tests; cbn [andb]; f_equal; lia.
Qed.

Lemma sextet_char (v : Z) : 0 <= v < 64 -> sextet (char v) = v.
Proof. intros Hv. unfold sextet. rewrite value_char by exact Hv. reflexivity. Qed.

Lemma is_alphabet_char (v : Z) : 0 <= v < 64 -> is_alphabet (char v) = true.
Proof. intros Hv. unfold is_alphabet. rewrite value_char by exact Hv. reflexivity. Qed.

Lemma is_alphabet_range (c : Z) :
  is_alphabet c = true ->
  65 <= c <= 90 \/ 97 <= c <= 122 \/ 48 <= c <= 57 \/ c = 43 \/ c = 47.
Proof.
  unfold is_alphabet, value. decide_tests; cbn [andb]; intros Hc; try lia; discriminate Hc.
Qed.

Lemma sextet_range (c : Z) : 0 <= sextet c < 64.
Proof. unfold sextet, value. decide_tests; cbn [andb]; lia. Qed.

(** Induction over a list three, and four, elements at a time. *)
Lemma by_threes {A} (P : list A -> Prop) :
  P [] -> (forall x, P [x]) -> (forall x y, P [x; y]) ->
  (forall x y z r, P r -> P (x :: y :: z :: r)) ->
  forall l, P l.
Proof.
  intros H0 H1 H2 H3. fix IH 1.
  intros [| x [| y [| z r]]];
    [exact H0 | exact (H1 x) | exact (H2 x y) | exact (H3 x y z r (IH r))].
Qed.

Lemma by_twos {A} (P : list A -> Prop) :
  P [] -> (forall x, P [x]) -> (forall x y r, P r -> P (x :: y :: r)) ->
  forall l, P l.
Proof.
  intros H0 H1 H2. fix IH 1.
  intros [| x [| y r]]; [exact H0 | exact (H1 x) | exact (H2 x y r (IH r))].
Qed.

Lemma by_fours {A} (P : list A -> Prop) :
  P [] -> (forall x, P [x]) -> (forall x y, P [x; y]) -> (forall x y z, P [x; y; z]) ->
  (forall x y z w r, P r -> P (x :: y :: z :: w :: r)) ->
  forall l, P l.
Proof.
  intros H0 H1 H2 H3 H4. fix IH 1.
  intros [| x [| y [| z [| w r]]]];
    [exact H0 | exact (H1 x) | exact (H2 x y) | exact (H3 x y z)
    | exact (H4 x y z w r (IH r))].
Qed.

Lemma length_octets (l : list Z) : length (octets l) = (length l * 3 / 4)%nat.
Proof.
  induction l as [| a | a b | a b c | a b c d r IH] using by_fours; try reflexivity.
  cbn [octets length]. rewrite IH.
  replace (S (S (S (S (length r)))) * 3)%nat with (length r * 3 + 3 * 4)%nat by lia.
  rewrite Nat.div_add by lia. lia.
Qed.

Lemma octets_are_bytes (l : list Z) :
  Forall (fun v => 0 <= v < 64) l -> Forall is_byte (octets l).
Proof.
  induction l as [| a | a b | a b c | a b c d r IH] using by_fours; intros Hl.
  - constructor.
  - constructor.
  - inversion_clear Hl as [| ? ? Ha Hl1]. inversion_clear Hl1 as [| ? ? Hb _].
    cbn [octets]. repeat constructor; unfold is_byte; arith.
  - inversion_clear Hl as [| ? ? Ha Hl1]. inversion_clear Hl1 as [| ? ? Hb Hl2].
    inversion_clear Hl2 as [| ? ? Hc _].
    cbn [octets]. repeat constructor; unfold is_byte; arith.
  - inversion_clear Hl as [| ? ? Ha Hl1]. inversion_clear Hl1 as [| ? ? Hb Hl2].
    inversion_clear Hl2 as [| ? ? Hc Hl3]. inversion_clear Hl3 as [| ? ? Hd Hr].
    cbn [octets]. repeat (constructor; [unfold is_byte; arith|]). exact (IH Hr).
Qed.

Lemma sextets_in_range (data : jsstring) :
  Forall (fun v => 0 <= v < 64) (map sextet data).
Proof.
  apply Forall_forall. intros v Hin. apply in_map_iff in Hin.
  destruct Hin as [c [<- _]]. apply sextet_range.
Qed.

(** Decoding the characters of an encoding gives the octets back. *)
Lemma octets_encode_data (bs : bytes) :
  Forall is_byte bs -> octets (map sextet (encode_data bs)) = bs.
Proof.
  induction bs as [| x | x y | x y z r IH] using by_threes; intros Hbs.
  - reflexivity.
  - inversion_clear Hbs as [| ? ? Hx _]. unfold is_byte in Hx.
    cbn [encode_data map]. rewrite !sextet_char by arith.
    cbn [octets]. f_equal. arith.
  - inversion_clear Hbs as [| ? ? Hx Hbs1]. inversion_clear Hbs1 as [| ? ? Hy _].
    unfold is_byte in Hx, Hy.
    cbn [encode_data map]. rewrite !sextet_char by arith.
    cbn [octets]. f_equal; [|f_equal]; arith.
  - inversion_clear Hbs as [| ? ? Hx Hbs1]. inversion_clear Hbs1 as [| ? ? Hy Hbs2].
    inversion_clear Hbs2 as [| ? ? Hz Hr].
    unfold is_byte in Hx, Hy, Hz.
    cbn [encode_data map]. rewrite !sextet_char by arith.
    cbn [octets]. rewrite (IH Hr). f_equal; [|f_equal; [|f_equal]]; arith.
Qed.

Lemma length_encode_data (bs : bytes) :
  length (encode_data bs) = ((length bs * 4 + 2) / 3)%nat.
Proof.
  induction bs as [| x | x y | x y z r IH] using by_threes; try reflexivity.
  cbn [encode_data length]. rewrite IH.
  replace (S (S (S (length r))) * 4 + 2)%nat with (length r * 4 + 2 + 4 * 3)%nat by lia.
  rewrite Nat.div_add by lia. lia.
Qed.

Lemma encode_data_alphabet (bs : bytes) :
  Forall is_byte bs -> forallb is_alphabet (encode_data bs) = true.
Proof.
  induction bs as [| x | x y | x y z r IH] using by_threes; intros Hbs.
  - reflexivity.
  - inversion_clear Hbs as [| ? ? Hx _]. unfold is_byte in Hx.
    cbn [encode_data forallb]. rewrite !is_alphabet_char by arith. reflexivity.
  - inversion_clear Hbs as [| ? ? Hx Hbs1]. inversion_clear Hbs1 as [| ? ? Hy _].
    unfold is_byte in Hx, Hy.
    cbn [encode_data forallb]. rewrite !is_alphabet_char by arith. reflexivity.
  - inversion_clear Hbs as [| ? ? Hx Hbs1]. inversion_clear Hbs1 as [| ? ? Hy Hbs2].
    inversion_clear Hbs2 as [| ? ? Hz Hr].
    unfold is_byte in Hx, Hy, Hz.
    cbn [encode_data forallb]. rewrite !is_alphabet_char by arith.
    rewrite (IH Hr). reflexivity.
Qed.

End Base64Facts.

(** ** The characters of a spelling of a key *)

Lemma is_key_char_range (c : Z) :
  is_key_char c = true ->
  65 <= c <= 90 \/ 97 <= c <= 122 \/ 48 <= c <= 57
  \/ c = 43 \/ c = 47 \/ c = 45 \/ c = 95 \/ c = 61.
Proof.
  unfold is_key_char, is_b64_char, Base64.PAD. intros Hc.
  repeat (apply orb_true_iff in Hc; destruct Hc as [Hc | Hc]).
  - apply Base64Facts.is_alphabet_range in Hc. lia.
  - apply Z.eqb_eq in Hc. lia.
  - apply Z.eqb_eq in Hc. lia.
  - apply Z.eqb_eq in Hc. lia.
Qed.

Lemma is_b64_char_key_char (c : Z) : is_b64_char c = true -> is_key_char c = true.
Proof. intros Hc. unfold is_key_char. rewrite Hc. reflexivity. Qed.

Lemma is_alphabet_b64_char (c : Z) : Base64.is_alphabet c = true -> is_b64_char c = true.
Proof. intros Hc. unfold is_b64_char. rewrite Hc. reflexivity. Qed.

Lemma key_char_not_space (c : Z) : is_key_char c = true -> is_space c = false.
Proof.
  intros Hc. apply is_key_char_range in Hc. unfold is_space.
  decide_tests; reflexivity.
Qed.

Lemma key_char_not_ascii_space (c : Z) :
  is_key_char c = true -> Base64.is_ascii_space c = false.
Proof.
  intros Hc. apply is_key_char_range in Hc. unfold Base64.is_ascii_space.
  decide_tests; reflexivity.
Qed.

Lemma key_char_not_quote (c : Z) :
  is_key_char c = true -> (c =? DQUOTE) = false /\ (c =? SQUOTE) = false.
Proof.
  intros Hc. apply is_key_char_range in Hc. unfold DQUOTE, SQUOTE.
  split; apply Z.eqb_neq; lia.
Qed.

Lemma filter_all {A} (f : A -> bool) (l : list A) :
  forallb f l = true -> filter f l = l.
Proof.
  induction l as [| x l IH]; [reflexivity|]. simpl. intros Hall.
  apply andb_true_iff in Hall. destruct Hall as [Hx Hl].
  rewrite Hx, (IH Hl). reflexivity.
Qed.

Lemma strip_spaces_key_chars (s : jsstring) :
  forallb is_key_char s = true -> strip_spaces s = s.
Proof.
  intros Hs. apply filter_all. revert Hs. apply forallb_impl.
  intros c Hc. rewrite (key_char_not_space c Hc). reflexivity.
Qed.

Lemma is_quoted_key_chars (s : jsstring) :
  forallb is_key_char s = true -> is_quoted s = false.
Proof.
  intros Hs. destruct s as [| c r]; [reflexivity|].
  simpl in Hs. apply andb_true_iff in Hs. destruct Hs as [Hc _].
  destruct (key_char_not_quote c Hc) as [Hd Hq].
  unfold is_quoted. cbn [startsWith1]. rewrite Hd, Hq. reflexivity.
Qed.

Lemma decode_stripped_plain (rep : jsstring) :
  forallb is_key_char rep = true -> rep <> [] ->
  decode_stripped rep = decode_normalized rep.
Proof.
  intros Hchars Hne. unfold decode_stripped.
  rewrite (is_quoted_key_chars rep Hchars). destruct rep; [contradiction | reflexivity].
Qed.

Lemma decode_stripped_quoted (rep : jsstring) (q : Z) :
  q = DQUOTE \/ q = SQUOTE ->
  decode_stripped (q :: rep ++ [q]) = decode_normalized rep.
Proof.
  intros Hq. unfold decode_stripped.
  rewrite is_quoted_ends, slice_1_m1_ends.
  destruct Hq as [-> | ->]; reflexivity.
Qed.

(** ** The base64 branch on 43 characters and optional padding *)

Lemma std_of_b64_char (c : Z) :
  is_b64_char c = true ->
  Base64.is_alphabet (if (if c =? 45 then 43 else c) =? 95 then 47
                      else (if c =? 45 then 43 else c)) = true.
Proof.
  intros Hc. pose proof (is_key_char_range c (is_b64_char_key_char c Hc)) as Hr.
  destruct (Z.eqb_spec c 45) as [-> | H45]; [reflexivity|].
  destruct (Z.eqb_spec c 95) as [-> | H95]; [reflexivity|].
  unfold is_b64_char in Hc.
  apply orb_true_iff in Hc. destruct Hc as [Hc | Hc]; [|apply Z.eqb_eq in Hc; lia].
  apply orb_true_iff in Hc. destruct Hc as [Hc | Hc]; [exact Hc|apply Z.eqb_eq in Hc; lia].
Qed.

Lemma url_to_std_alphabet (data : jsstring) :
  forallb is_b64_char data = true ->
  forallb Base64.is_alphabet (url_to_std data) = true.
Proof.
  intros Hdata. unfold url_to_std. rewrite map_map.
  apply forallb_forall. intros c Hin. apply in_map_iff in Hin.
  destruct Hin as [x [<- Hx]].
  apply std_of_b64_char. exact (proj1 (forallb_forall _ _) Hdata x Hx).
Qed.

Lemma length_url_to_std (s : jsstring) : length (url_to_std s) = length s.
Proof. unfold url_to_std. rewrite !length_map. reflexivity. Qed.

Lemma url_to_std_app (a b : jsstring) :
  url_to_std (a ++ b) = url_to_std a ++ url_to_std b.
Proof. unfold url_to_std. rewrite !map_app. reflexivity. Qed.

Lemma alphabet_not_pad (c : Z) : Base64.is_alphabet c = true -> (c =? Base64.PAD) = false.
Proof.
  intros Hc. apply Base64Facts.is_alphabet_range in Hc.
  unfold Base64.PAD. apply Z.eqb_neq. lia.
Qed.

Lemma forallb_rev {A} (f : A -> bool) (l : list A) :
  forallb f l = true -> forallb f (rev l) = true.
Proof.
  intros Hl. apply forallb_forall. intros x Hin. apply in_rev in Hin.
  exact (proj1 (forallb_forall _ _) Hl x Hin).
Qed.

(** [atob] on 43 characters of the alphabet and one [=]. *)
Lemma atob_43_padded (d : jsstring) :
  forallb Base64.is_alphabet d = true -> length d = 43%nat ->
  Base64.atob (d ++ [Base64.PAD]) = Ok (Base64.octets (map Base64.sextet d)).
Proof.
  intros Halpha Hlen. unfold Base64.atob.
  rewrite filter_all.
  2:{ rewrite forallb_app. apply andb_true_iff. split; [|reflexivity].
      revert Halpha. apply forallb_impl. intros c Hc.
      rewrite (key_char_not_ascii_space c
                 (is_b64_char_key_char c (is_alphabet_b64_char c Hc))).
      reflexivity. }
  assert (Hstrip : Base64.strip_padding (d ++ [Base64.PAD]) = d).
  { unfold Base64.strip_padding. rewrite length_app, Hlen. cbn [length Nat.add].
    change ((44 mod 4 =? 0)%nat) with true. cbv iota.
    rewrite rev_unit, Z.eqb_refl.
    pose proof (forallb_rev _ _ Halpha) as Hrev.
    destruct (rev d) as [| b r'] eqn:Erev.
    - rewrite <- (rev_involutive d), Erev. reflexivity.
    - simpl in Hrev. apply andb_true_iff in Hrev. destruct Hrev as [Hb _].
      rewrite (alphabet_not_pad b Hb), <- Erev. apply rev_involutive. }
  rewrite Hstrip, Hlen, Halpha. reflexivity.
Qed.

(** The last steps of the base64 branch on 43 decoded sextets. *)
Lemma base64_decoded_32 (d : jsstring) :
  forallb Base64.is_alphabet d = true -> length d = 43%nat ->
  (let bs := map (fun c => c mod 256) (Base64.octets (map Base64.sextet d)) in
   if (length bs =? 32)%nat then Ok bs else Throw (Error (MSG_NOT_32 (length bs))))
  = Ok (Base64.octets (map Base64.sextet d)).
Proof.
  intros Halpha Hlen. cbv zeta.
  assert (Hbytes : map (fun c => c mod 256) (Base64.octets (map Base64.sextet d))
                   = Base64.octets (map Base64.sextet d)).
  { rewrite <- (map_id (Base64.octets (map Base64.sextet d))) at 2.
    apply map_ext_in. intros b Hin.
    pose proof (Base64Facts.octets_are_bytes _ (Base64Facts.sextets_in_range d)) as Hall.
    rewrite Forall_forall in Hall. specialize (Hall b Hin). unfold is_byte in Hall.
    apply Z.mod_small. exact Hall. }
  rewrite Hbytes, Base64Facts.length_octets, length_map, Hlen. reflexivity.
Qed.

Lemma base64_key_bytes_43 (data pad : jsstring) :
  forallb is_b64_char data = true -> length data = 43%nat ->
  pad = [] \/ pad = [Base64.PAD] ->
  base64_key_bytes (data ++ pad)
  = Ok (Base64.octets (map Base64.sextet (url_to_std data))).
Proof.
  intros Hdata Hlen Hpad.
  pose proof (url_to_std_alphabet data Hdata) as Halpha.
  pose proof (length_url_to_std data) as Hlen'. rewrite Hlen in Hlen'.
  unfold base64_key_bytes. cbv zeta. rewrite url_to_std_app.
  set (d := url_to_std data) in *.
  assert (Hatob : Base64.atob (d ++ [Base64.PAD])
                  = Ok (Base64.octets (map Base64.sextet d)))
    by exact (atob_43_padded d Halpha Hlen').
  destruct Hpad as [-> | ->].
  - change (url_to_std []) with (@nil Z). rewrite app_nil_r, Hlen'.
    change ((43 mod 4 =? 1)%nat) with false.
    change ((43 mod 4 =? 0)%nat) with false.
    change (repeat Base64.PAD (4 - 43 mod 4)) with [Base64.PAD].
    cbv iota. rewrite Hatob. apply base64_decoded_32; assumption.
  - change (url_to_std [Base64.PAD]) with [Base64.PAD].
    rewrite length_app, Hlen'. cbn [length Nat.add].
    change ((44 mod 4 =? 1)%nat) with false.
    change ((44 mod 4 =? 0)%nat) with true.
    cbv iota. rewrite Hatob. apply base64_decoded_32; assumption.
Qed.

(** ** Every spelling of a key decodes to the key *)

Lemma hex64_length (s : jsstring) : hex64 s = true -> length s = 64%nat.
Proof.
  unfold hex64. intros Hs. apply andb_true_iff in Hs. destruct Hs as [Hl _].
  apply Nat.eqb_eq. exact Hl.
Qed.

Lemma hexMatch_length (s : jsstring) :
  hexMatch s = true -> length s = 64%nat \/ length s = 66%nat.
Proof.
  unfold hexMatch. intros Hs. apply orb_true_iff in Hs. destruct Hs as [Hs | Hs].
  - left. apply hex64_length. exact Hs.
  - right. apply andb_true_iff in Hs. destruct Hs as [H0x Hh].
    destruct s as [| a [| b r]]; try discriminate H0x.
    apply hex64_length in Hh. simpl in Hh. simpl. lia.
Qed.

Lemma decode_normalized_base64 (data pad : jsstring) :
  forallb is_b64_char data = true -> length data = 43%nat ->
  pad = [] \/ pad = [Base64.PAD] ->
  decode_normalized (data ++ pad)
  = Ok (Base64.octets (map Base64.sextet (url_to_std data))).
Proof.
  intros Hdata Hlen Hpad. unfold decode_normalized.
  destruct (hexMatch (data ++ pad)) eqn:Hhex.
  - apply hexMatch_length in Hhex. rewrite length_app, Hlen in Hhex.
    destruct Hpad as [-> | ->]; simpl in Hhex; lia.
  - apply base64_key_bytes_43; assumption.
Qed.

Lemma url_to_std_of_alphabet (data : jsstring) :
  forallb Base64.is_alphabet data = true -> url_to_std data = data.
Proof.
  intros Hdata. unfold url_to_std. rewrite map_map.
  rewrite <- (map_id data) at 2. apply map_ext_in. intros c Hin.
  pose proof (proj1 (forallb_forall _ _) Hdata c Hin) as Hc.
  apply Base64Facts.is_alphabet_range in Hc.
  destruct (Z.eqb_spec c 45); [lia|]. destruct (Z.eqb_spec c 95); [lia | reflexivity].
Qed.

Lemma url_to_std_to_url (data : jsstring) :
  forallb Base64.is_alphabet data = true -> url_to_std (Base64.to_url data) = data.
Proof.
  intros Hdata. unfold url_to_std, Base64.to_url. rewrite !map_map.
  rewrite <- (map_id data) at 2. apply map_ext_in. intros c Hin.
  pose proof (proj1 (forallb_forall _ _) Hdata c Hin) as Hc.
  apply Base64Facts.is_alphabet_range in Hc.
  destruct (Z.eqb_spec c 43) as [-> | H43]; [reflexivity|].
  destruct (Z.eqb_spec c 47) as [-> | H47]; [reflexivity|].
  destruct (Z.eqb_spec c 45); [lia|]. destruct (Z.eqb_spec c 95); [lia | reflexivity].
Qed.

Lemma to_url_b64_chars (data : jsstring) :
  forallb Base64.is_alphabet data = true ->
  forallb is_b64_char (Base64.to_url data) = true.
Proof.
  intros Hdata. unfold Base64.to_url. rewrite map_map.
  apply forallb_forall. intros c Hin. apply in_map_iff in Hin.
  destruct Hin as [x [<- Hx]].
  pose proof (proj1 (forallb_forall _ _) Hdata x Hx) as Hc.
  unfold is_b64_char.
  destruct (Z.eqb_spec x 43) as [-> | H43]; [reflexivity|].
  destruct (Z.eqb_spec x 47) as [-> | H47]; [reflexivity|].
  rewrite Hc. reflexivity.
Qed.

Lemma length_to_url (s : jsstring) : length (Base64.to_url s) = length s.
Proof. unfold Base64.to_url. rewrite !length_map. reflexivity. Qed.

Lemma to_url_padded (data : jsstring) :
  Base64.to_url (data ++ [Base64.PAD]) = Base64.to_url data ++ [Base64.PAD].
Proof. unfold Base64.to_url. rewrite !map_app. reflexivity. Qed.

Lemma b64_char_not_pad (c : Z) : is_b64_char c = true -> (c =? Base64.PAD) = false.
Proof.
  intros Hc. pose proof (is_key_char_range c (is_b64_char_key_char c Hc)) as Hr.
  unfold is_b64_char in Hc.
  destruct (Z.eqb_spec c Base64.PAD) as [E | E]; [|reflexivity].
  unfold Base64.PAD in E. subst c. discriminate Hc.
Qed.

Lemma drop_leading_pad_b64 (s : jsstring) :
  forallb is_b64_char s = true -> Base64.drop_leading_pad s = s.
Proof.
  intros Hs. destruct s as [| c r]; [reflexivity|].
  simpl in Hs. apply andb_true_iff in Hs. destruct Hs as [Hc _].
  cbn [Base64.drop_leading_pad]. rewrite (b64_char_not_pad c Hc). reflexivity.
Qed.

(** Removing the padding of [data] and of [data =]. *)
Lemma unpad_b64 (data : jsstring) :
  forallb is_b64_char data = true ->
  Base64.unpad data = data /\ Base64.unpad (data ++ [Base64.PAD]) = data.
Proof.
  intros Hdata. unfold Base64.unpad.
  pose proof (drop_leading_pad_b64 _ (forallb_rev _ _ Hdata)) as Hdrop.
  split.
  - rewrite Hdrop. apply rev_involutive.
  - rewrite rev_unit. cbn [Base64.drop_leading_pad]. rewrite Z.eqb_refl, Hdrop.
    apply rev_involutive.
Qed.

Lemma forallb_key_chars_app (a b : jsstring) :
  forallb is_key_char a = true -> forallb is_key_char b = true ->
  forallb is_key_char (a ++ b) = true.
Proof. intros Ha Hb. rewrite forallb_app, Ha, Hb. reflexivity. Qed.

Lemma is_lower_hex_key_char (c : Z) : is_lower_hex c = true -> is_key_char c = true.
Proof.
  intros Hc. apply is_b64_char_key_char, is_alphabet_b64_char.
  unfold is_lower_hex in Hc. unfold Base64.is_alphabet, Base64.value.
  apply orb_true_iff in Hc.
  destruct Hc as [Hc | Hc]; apply andb_true_iff in Hc; destruct Hc as [H1 H2];
    apply Z.leb_le in H1; apply Z.leb_le in H2; decide_tests; reflexivity.
Qed.

Lemma length_nonempty {A} (l : list A) (n : nat) : length l = S n -> l <> [].
Proof. intros Hl ->. discriminate Hl. Qed.

(** Each spelling is made of key characters, is not empty, and the
    decoder, past its normalisation, reads the key from it. *)
Lemma spelling_decodes (k : bytes) (rep : jsstring) :
  is_key k -> In rep (key_spellings k) ->
  forallb is_key_char rep = true /\ rep <> [] /\ decode_normalized rep = Ok k.
Proof.
  intros Hk Hin. pose proof Hk as [Hlen Hbytes].
  destruct (hex_of_bytes_shape k Hbytes) as [Hhexlen Hhex]. rewrite Hlen in Hhexlen.
  pose proof (forallb_impl _ _ _ is_lower_hex_key_char Hhex) as Hhexchars.
  pose proof (Base64Facts.encode_data_alphabet k Hbytes) as Halpha.
  pose proof (forallb_impl _ _ _ is_alphabet_b64_char Halpha) as Hb64.
  pose proof (Base64Facts.length_encode_data k) as Hdlen. rewrite Hlen in Hdlen.
  change ((32 * 4 + 2) / 3)%nat with 43%nat in Hdlen.
  assert (Henc : Base64.encode k = Base64.encode_data k ++ [Base64.PAD]).
  { unfold Base64.encode. rewrite Hlen. reflexivity. }
  pose proof (to_url_b64_chars _ Halpha) as Hurl.
  pose proof (length_to_url (Base64.encode_data k)) as Hulen. rewrite Hdlen in Hulen.
  assert (Hstd : Base64.octets (map Base64.sextet (url_to_std (Base64.encode_data k))) = k).
  { rewrite url_to_std_of_alphabet by exact Halpha.
    apply Base64Facts.octets_encode_data. exact Hbytes. }
  assert (Hustd : Base64.octets
                    (map Base64.sextet (url_to_std (Base64.to_url (Base64.encode_data k))))
                  = k).
  { rewrite url_to_std_to_url by exact Halpha.
    apply Base64Facts.octets_encode_data. exact Hbytes. }
  unfold key_spellings in Hin. rewrite Henc, to_url_padded in Hin.
  rewrite (proj2 (unpad_b64 _ Hb64)), (proj2 (unpad_b64 _ Hurl)) in Hin.
  simpl in Hin.
  destruct Hin as [<- | [<- | [<- | [<- | [<- | [<- | []]]]]]].
  - split; [exact Hhexchars|]. split; [exact (length_nonempty _ _ Hhexlen)|].
    apply decode_normalized_hex. exact Hk.
  - split; [exact Hhexchars|]. split; [discriminate|].
    apply (decode_normalized_0x_hex k Hk).
  - split; [|split].
    + apply forallb_key_chars_app; [|reflexivity].
      exact (forallb_impl _ _ _ is_b64_char_key_char Hb64).
    + intros E. apply (f_equal (@length Z)) in E. rewrite length_app, Hdlen in E.
      discriminate E.
    + rewrite decode_normalized_base64 by auto. rewrite Hstd. reflexivity.
  - split; [|split].
    + exact (forallb_impl _ _ _ is_b64_char_key_char Hb64).
    + exact (length_nonempty _ _ Hdlen).
    + rewrite <- (app_nil_r (Base64.encode_data k)) at 1.
      rewrite decode_normalized_base64 by auto. rewrite Hstd. reflexivity.
  - split; [|split].
    + apply forallb_key_chars_app; [|reflexivity].
      exact (forallb_impl _ _ _ is_b64_char_key_char Hurl).
    + intros E. apply (f_equal (@length Z)) in E. rewrite length_app, Hulen in E.
      discriminate E.
    + rewrite decode_normalized_base64 by auto. rewrite Hustd. reflexivity.
  - split; [|split].
    + exact (forallb_impl _ _ _ is_b64_char_key_char Hurl).
    + exact (length_nonempty _ _ Hulen).
    + rewrite <- (app_nil_r (Base64.to_url (Base64.encode_data k))) at 1.
      rewrite decode_normalized_base64 by auto. rewrite Hustd. reflexivity.
Qed.

(** C4. Every spelling of a 32-octet key (hexadecimal, [0x]-prefixed
    hexadecimal, base64 and base64url, padded or not) decodes to the
    same 32 octets, those of the key.  Nor does it matter whether the
    spelling stands between one pair of matching quotes, or has white
    space before it, after it or inside it, or both. *)
Theorem decodeAes256KeyBytes_spellings (k : bytes) (rep : jsstring) :
  is_key k -> In rep (key_spellings k) ->
  decodeAes256KeyBytes rep = Ok k
  /\ (forall q, q = DQUOTE \/ q = SQUOTE ->
        decodeAes256KeyBytes (q :: rep ++ [q]) = Ok k)
  /\ (forall spaced, strip_spaces spaced = rep ->
        decodeAes256KeyBytes spaced = Ok k)
  /\ (forall q spaced, q = DQUOTE \/ q = SQUOTE ->
        strip_spaces spaced = q :: rep ++ [q] ->
        decodeAes256KeyBytes spaced = Ok k).
Proof.
  intros Hk Hin.
  destruct (spelling_decodes k rep Hk Hin) as [Hchars [Hne Hdec]].
  assert (Hspaced : forall spaced, strip_spaces spaced = rep ->
                                   decodeAes256KeyBytes spaced = Ok k).
  { intros spaced Hs.
    rewrite decode_by_stripped, Hs, decode_stripped_plain by assumption.
    exact Hdec. }
  assert (Hquoted : forall q spaced, q = DQUOTE \/ q = SQUOTE ->
                                     strip_spaces spaced = q :: rep ++ [q] ->
                                     decodeAes256KeyBytes spaced = Ok k).
  { intros q spaced Hq Hs.
    rewrite decode_by_stripped, Hs, decode_stripped_quoted by exact Hq.
    exact Hdec. }
  split; [|split; [|split]].
  - apply Hspaced. apply strip_spaces_key_chars. exact Hchars.
  - intros q Hq. apply (Hquoted q _ Hq).
    change (q :: rep ++ [q]) with ([q] ++ rep ++ [q]).
    rewrite !strip_spaces_app, (strip_spaces_key_chars rep Hchars).
    destruct Hq as [-> | ->]; reflexivity.
  - exact Hspaced.
  - exact Hquoted.
Qed.

(** C4 for the key [0; 1; ...; 31] spelled in padded base64. *)
Lemma decodeAes256KeyBytes_spellings_demo :
  decodeAes256KeyBytes (Base64.encode Demo.key32) = Ok Demo.key32
  /\ (forall q, q = DQUOTE \/ q = SQUOTE ->
        decodeAes256KeyBytes (q :: Base64.encode Demo.key32 ++ [q]) = Ok Demo.key32)
  /\ (forall spaced, strip_spaces spaced = Base64.encode Demo.key32 ->
        decodeAes256KeyBytes spaced = Ok Demo.key32)
  /\ (forall q spaced, q = DQUOTE \/ q = SQUOTE ->
        strip_spaces spaced = q :: Base64.encode Demo.key32 ++ [q] ->
        decodeAes256KeyBytes spaced = Ok Demo.key32).
Proof.
  apply (decodeAes256KeyBytes_spellings Demo.key32 (Base64.encode Demo.key32)).
  - split; [reflexivity|]. unfold Demo.key32. simpl.
    repeat (constructor; [unfold is_byte; lia|]). constructor.
  - unfold key_spellings. right. right. left. reflexivity.
Defined.

(** ** What [decodeAes256KeyBytes] accepts and what it refuses *)

Lemma decode_nonempty (keyEncoded : jsstring) :
  trim keyEncoded <> [] ->
  decodeAes256KeyBytes keyEncoded = decode_normalized (normalize keyEncoded).
Proof.
  intros Hne. unfold decodeAes256KeyBytes, normalize.
  destruct (trim keyEncoded); [contradiction | reflexivity].
Qed.

Lemma config_error_prefix (rest : jsstring) :
  is_config_error (Error (js "Invalid KEY_ENCRYPTION_SECRET" ++ rest)).
Proof. exists rest. reflexivity. Qed.

(** Every failure of the decoder is a configuration error. *)
Lemma decode_normalized_throws (n : jsstring) (e : exn) :
  decode_normalized n = Throw e -> is_config_error e.
Proof.
  unfold decode_normalized, base64_key_bytes.
  destruct (hexMatch n); [discriminate|].
  destruct (_ =? 1)%nat; [intros [= <-]; apply config_error_prefix|].
  destruct (Base64.atob _); [|intros [= <-]; apply config_error_prefix].
  destruct (_ =? 32)%nat; [discriminate|].
  intros [= <-]. unfold MSG_NOT_32.
  exact (config_error_prefix
           (js ": must decode to 32 bytes (got " ++ _ ++ js "). Generate one with `openssl rand -base64 32`.")).
Qed.

Lemma to_uint8_byte (v : option Z) : is_byte (to_uint8 v).
Proof.
  unfold is_byte, to_uint8. destruct v as [n|]; [apply Z.mod_pos_bound|]; lia.
Qed.

(** Every success of the decoder is a key of 32 octets. *)
Lemma decode_normalized_key (n : jsstring) (k : bytes) :
  decode_normalized n = Ok k -> is_key k.
Proof.
  unfold decode_normalized, base64_key_bytes.
  destruct (hexMatch n).
  - intros [= <-]. unfold hex_key_bytes. split.
    + rewrite length_map, length_seq. reflexivity.
    + apply Forall_forall. intros b Hin. apply in_map_iff in Hin.
      destruct Hin as [i [<- _]]. apply to_uint8_byte.
  - destruct (_ =? 1)%nat; [discriminate|].
    destruct (Base64.atob _) as [decoded|]; [|discriminate].
    destruct (_ =? 32)%nat eqn:Hlen; [|discriminate].
    intros [= <-]. split; [apply Nat.eqb_eq; exact Hlen|].
    apply Forall_forall. intros b Hin. apply in_map_iff in Hin.
    destruct Hin as [c [<- _]]. apply Z.mod_pos_bound. lia.
Qed.

Lemma hexMatch_form (n : jsstring) : hexMatch n = true <-> is_hex_form n.
Proof.
  unfold hexMatch, is_hex_form, hex64. split.
  - intros Hn. apply orb_true_iff in Hn. destruct Hn as [Hn | Hn].
    + apply andb_true_iff in Hn. destruct Hn as [Hl Hd].
      exists n. split; [left; reflexivity|]. split; [apply Nat.eqb_eq|]; assumption.
    + apply andb_true_iff in Hn. destruct Hn as [H0x Hn].
      apply andb_true_iff in Hn. destruct Hn as [Hl Hd].
      destruct n as [| a [| b h]]; try discriminate H0x.
      cbn [startsWith_0x] in H0x. apply andb_true_iff in H0x.
      destruct H0x as [Ha Hb]. apply Z.eqb_eq in Ha. apply Z.eqb_eq in Hb. subst a b.
      exists h. split; [right; reflexivity|].
      split; [apply Nat.eqb_eq|]; assumption.
  - intros [h [[-> | ->] [Hl Hd]]].
    + rewrite Hl, Hd. reflexivity.
    + change (js "0x" ++ h) with (48 :: 120 :: h). cbn [startsWith_0x skipn].
      rewrite Hl, Hd. apply orb_true_r.
Qed.

Lemma url_to_std_map (s : jsstring) : url_to_std s = map std_char s.
Proof.
  unfold url_to_std. rewrite map_map. apply map_ext. intros c. unfold std_char.
  destruct (Z.eqb_spec c 45) as [-> | H45]; [reflexivity|].
  destruct (Z.eqb_spec c 95) as [-> | H95]; reflexivity.
Qed.

Lemma std_char_cases (c : Z) :
  (c = 45 /\ std_char c = 43) \/ (c = 95 /\ std_char c = 47)
  \/ (c <> 45 /\ c <> 95 /\ std_char c = c).
Proof.
  unfold std_char.
  destruct (Z.eqb_spec c 45); [left; auto|].
  destruct (Z.eqb_spec c 95); [right; left; auto | right; right; auto].
Qed.

Lemma std_char_pad_inv (c : Z) : std_char c = Base64.PAD -> c = Base64.PAD.
Proof.
  unfold Base64.PAD.
  destruct (std_char_cases c) as [[_ E] | [[_ E] | [_ [_ E]]]]; rewrite E; lia.
Qed.

Lemma std_char_alphabet_inv (c : Z) :
  Base64.is_alphabet (std_char c) = true -> is_b64_char c = true.
Proof.
  unfold is_b64_char.
  destruct (std_char_cases c) as [[-> _] | [[-> _] | [_ [_ E]]]];
    [intros _; reflexivity | intros _; reflexivity|].
  rewrite E. intros ->. reflexivity.
Qed.

Lemma ascii_space_is_space (c : Z) :
  Base64.is_ascii_space c = true -> is_space c = true.
Proof.
  unfold Base64.is_ascii_space. intros Hc.
  repeat (apply orb_true_iff in Hc; destruct Hc as [Hc | Hc]);
    apply Z.eqb_eq in Hc; subst c; reflexivity.
Qed.

Lemma std_char_not_ascii_space (c : Z) :
  is_space c = false -> Base64.is_ascii_space (std_char c) = false.
Proof.
  intros Hc.
  destruct (std_char_cases c) as [[_ E] | [[_ E] | [_ [_ E]]]]; rewrite E;
    [reflexivity | reflexivity|].
  destruct (Base64.is_ascii_space c) eqn:Ha; [|reflexivity].
  apply ascii_space_is_space in Ha. congruence.
Qed.

Lemma atob_ok_inv (s decoded : jsstring) :
  forallb (fun c => negb (Base64.is_ascii_space c)) s = true ->
  Base64.atob s = Ok decoded ->
  (length (Base64.strip_padding s) mod 4 <> 1)%nat
  /\ forallb Base64.is_alphabet (Base64.strip_padding s) = true
  /\ decoded = Base64.octets (map Base64.sextet (Base64.strip_padding s)).
Proof.
  intros Hclean. unfold Base64.atob. rewrite (filter_all _ _ Hclean).
  destruct (_ =? 1)%nat eqn:Hmod; [discriminate|].
  destruct (forallb Base64.is_alphabet _) eqn:Halpha; [|discriminate].
  intros [= <-]. apply Nat.eqb_neq in Hmod. auto.
Qed.

(** A padded string of which 43 characters of the alphabet remain
    ended with exactly one [=]. *)
Lemma strip_padding_43 (p : jsstring) :
  (length p mod 4 = 0)%nat ->
  length (Base64.strip_padding p) = 43%nat ->
  p = Base64.strip_padding p ++ [Base64.PAD].
Proof.
  intros Hmod. unfold Base64.strip_padding. rewrite Hmod. cbn [Nat.eqb].
  destruct (rev p) as [| a r] eqn:Erev.
  - intros Hlen. rewrite Hlen in Hmod. discriminate Hmod.
  - assert (Hp : p = rev r ++ [a]).
    { rewrite <- (rev_involutive p), Erev. reflexivity. }
    destruct (Z.eqb_spec a Base64.PAD) as [-> | Ha].
    + destruct r as [| b r'].
      * intros Hlen. discriminate Hlen.
      * destruct (Z.eqb_spec b Base64.PAD) as [-> | Hb].
        -- intros Hlen. exfalso. rewrite Hp in Hmod.
           cbn [rev] in Hmod. rewrite !length_app, Hlen in Hmod. discriminate Hmod.
        -- intros _. exact Hp.
    + intros Hlen. rewrite Hlen in Hmod. discriminate Hmod.
Qed.

Lemma map_std_char_b64 (data : jsstring) :
  forallb Base64.is_alphabet (map std_char data) = true ->
  forallb is_b64_char data = true.
Proof.
  intros Hall. apply forallb_forall. intros c Hin. apply std_char_alphabet_inv.
  apply (proj1 (forallb_forall _ _) Hall). apply in_map. exact Hin.
Qed.

(** If the base64 branch succeeds, its input has the base64 form and
    decodes to 32 octets. *)
Lemma base64_ok_form (n : jsstring) (k : bytes) :
  forallb (fun c => negb (is_space c)) n = true ->
  base64_key_bytes n = Ok k ->
  exists data, is_base64_form n data /\ decoded_length data = 32%nat.
Proof.
  intros Hclean. unfold base64_key_bytes. cbv zeta. rewrite url_to_std_map.
  assert (Hclean' : forallb (fun c => negb (Base64.is_ascii_space c)) (map std_char n)
                    = true).
  { apply forallb_forall. intros c Hin. apply in_map_iff in Hin.
    destruct Hin as [x [<- Hx]].
    pose proof (proj1 (forallb_forall _ _) Hclean x Hx) as Hs.
    apply negb_true_iff in Hs. rewrite (std_char_not_ascii_space x Hs). reflexivity. }
  pose proof (length_map std_char n) as Hlenmap.
  assert (Hlt : (length (map std_char n) mod 4 < 4)%nat)
    by (apply Nat.mod_upper_bound; discriminate).
  destruct (length (map std_char n) mod 4)%nat as [| [| [| [| m]]]] eqn:Hm;
    [| discriminate | | | lia]; cbn [Nat.eqb Nat.sub repeat].
  - (* a multiple of four: nothing is appended *)
    destruct (Base64.atob (map std_char n)) as [decoded|] eqn:Hatob; [|discriminate].
    destruct (_ =? 32)%nat eqn:H32; [|discriminate]. intros _.
    apply Nat.eqb_eq in H32. rewrite length_map in H32.
    destruct (atob_ok_inv _ _ Hclean' Hatob) as [Hmod [Halpha ->]].
    rewrite Base64Facts.length_octets, length_map in H32.
    assert (H43 : length (Base64.strip_padding (map std_char n)) = 43%nat) by natarith.
    pose proof (strip_padding_43 _ Hm H43) as Hp.
    apply map_eq_app in Hp.
    destruct Hp as [data [pad [Hn [Hdata Hpad]]]].
    destruct pad as [| c [| c' pad']]; try discriminate Hpad.
    injection Hpad as Hc. apply std_char_pad_inv in Hc. subst c.
    rewrite <- Hdata in Halpha, H43. rewrite length_map in H43.
    exists data. unfold is_base64_form, decoded_length. rewrite H43.
    split; [|reflexivity].
    split; [exact (map_std_char_b64 data Halpha)|].
    split; [discriminate | right; exact Hn].
  - (* remainder two: [==] is appended *)
    destruct (Base64.atob _) as [decoded|] eqn:Hatob; [|discriminate].
    destruct (_ =? 32)%nat eqn:H32; [|discriminate]. intros _. exfalso.
    apply Nat.eqb_eq in H32. rewrite length_map in H32.
    assert (Hclean'' : forallb (fun c => negb (Base64.is_ascii_space c))
                         (map std_char n ++ [Base64.PAD; Base64.PAD]) = true)
      by (rewrite forallb_app, Hclean'; reflexivity).
    destruct (atob_ok_inv _ _ Hclean'' Hatob) as [Hmod [Halpha ->]].
    rewrite Base64Facts.length_octets, length_map in H32.
    assert (H43 : length (Base64.strip_padding (map std_char n ++ [Base64.PAD; Base64.PAD]))
                  = 43%nat) by natarith.
    assert (Hm4 : (length (map std_char n ++ [Base64.PAD; Base64.PAD]) mod 4 = 0)%nat).
    { rewrite length_app. cbn [length]. natarith. }
    pose proof (strip_padding_43 _ Hm4 H43) as Hp.
    change (map std_char n ++ [Base64.PAD; Base64.PAD])
      with (map std_char n ++ [Base64.PAD] ++ [Base64.PAD]) in Hp at 1.
    rewrite app_assoc in Hp. apply app_inj_tail in Hp. destruct Hp as [Hp _].
    rewrite <- Hp, forallb_app in Halpha.
    apply andb_true_iff in Halpha. destruct Halpha as [_ Hpad]. discriminate Hpad.
  - (* remainder three: [=] is appended *)
    destruct (Base64.atob _) as [decoded|] eqn:Hatob; [|discriminate].
    destruct (_ =? 32)%nat eqn:H32; [|discriminate]. intros _.
    apply Nat.eqb_eq in H32. rewrite length_map in H32.
    assert (Hclean'' : forallb (fun c => negb (Base64.is_ascii_space c))
                         (map std_char n ++ [Base64.PAD]) = true)
      by (rewrite forallb_app, Hclean'; reflexivity).
    destruct (atob_ok_inv _ _ Hclean'' Hatob) as [Hmod [Halpha ->]].
    rewrite Base64Facts.length_octets, length_map in H32.
    assert (H43 : length (Base64.strip_padding (map std_char n ++ [Base64.PAD]))
                  = 43%nat) by natarith.
    assert (Hm4 : (length (map std_char n ++ [Base64.PAD]) mod 4 = 0)%nat).
    { rewrite length_app. cbn [length]. natarith. }
    pose proof (strip_padding_43 _ Hm4 H43) as Hp.
    apply app_inj_tail in Hp. destruct Hp as [Hp _].
    rewrite <- Hp in Halpha, H43. rewrite length_map in H43.
    exists n. unfold is_base64_form, decoded_length. rewrite H43.
    split; [|reflexivity].
    split; [exact (map_std_char_b64 n Halpha)|].
    split; [discriminate | left; reflexivity].
Qed.

(** An input of the base64 form that decodes to 32 octets is accepted. *)
Lemma base64_form_ok (n data : jsstring) :
  is_base64_form n data -> decoded_length data = 32%nat ->
  exists k, base64_key_bytes n = Ok k.
Proof.
  intros [Hchars [Hmod Hn]] Hlen. unfold decoded_length in Hlen.
  assert (H43 : length data = 43%nat) by natarith.
  rewrite H43 in Hn. cbn [Nat.modulo Nat.divmod Nat.sub fst snd repeat] in Hn.
  eexists. destruct Hn as [-> | ->].
  - rewrite <- (app_nil_r data) at 1. apply base64_key_bytes_43; auto.
  - apply base64_key_bytes_43; auto.
Qed.

(** The characters before the padding are determined by the input. *)
Lemma padded_data_unique (a a' : jsstring) (i j : nat) :
  forallb is_b64_char a = true -> forallb is_b64_char a' = true ->
  a ++ repeat Base64.PAD i = a' ++ repeat Base64.PAD j -> a = a'.
Proof.
  revert a'. induction a as [| x a IH]; intros [| y a'] Ha Ha' Heq.
  - reflexivity.
  - exfalso. simpl in Ha'. apply andb_true_iff in Ha'. destruct Ha' as [Hy _].
    destruct i as [| i]; [discriminate Heq|].
    simpl in Heq. injection Heq as Hxy _. subst y. discriminate Hy.
  - exfalso. simpl in Ha. apply andb_true_iff in Ha. destruct Ha as [Hx _].
    destruct j as [| j]; [discriminate Heq|].
    simpl in Heq. injection Heq as Hxy _. subst x. discriminate Hx.
  - simpl in Ha, Ha', Heq.
    apply andb_true_iff in Ha. apply andb_true_iff in Ha'.
    injection Heq as -> Heq. f_equal. apply IH; tauto.
Qed.

Lemma base64_form_unique (n d1 d2 : jsstring) :
  is_base64_form n d1 -> is_base64_form n d2 -> d1 = d2.
Proof.
  intros [H1 [_ Hn1]] [H2 [_ Hn2]].
  assert (E1 : exists i, n = d1 ++ repeat Base64.PAD i).
  { destruct Hn1 as [-> | ->]; [exists 0%nat; rewrite app_nil_r | eexists]; reflexivity. }
  assert (E2 : exists j, n = d2 ++ repeat Base64.PAD j).
  { destruct Hn2 as [-> | ->]; [exists 0%nat; rewrite app_nil_r | eexists]; reflexivity. }
  destruct E1 as [i E1]. destruct E2 as [j E2].
  apply (padded_data_unique d1 d2 i j H1 H2). congruence.
Qed.

Lemma normalize_clean (keyEncoded : jsstring) :
  forallb (fun c => negb (is_space c)) (normalize keyEncoded) = true.
Proof. unfold normalize, strip_spaces. apply forallb_filter. Qed.

(** C5. [decodeAes256KeyBytes] fails with a configuration error on an
    input that is empty once trimmed; on an input whose normalised
    form (trimmed, one layer of matching quotes removed, white space
    deleted) has neither the hexadecimal nor the base64 form; and on
    one of the base64 form that decodes to another number of octets
    than 32.  On every other input it returns 32 octets.  It never
    fails otherwise than with a configuration error and never returns
    anything but 32 octets. *)
Theorem decodeAes256KeyBytes_outcomes (keyEncoded : jsstring) :
  let n := normalize keyEncoded in
  (trim keyEncoded = [] ->
     decodeAes256KeyBytes keyEncoded = Throw (Error MSG_EMPTY)
     /\ is_config_error (Error MSG_EMPTY))
  /\ (trim keyEncoded <> [] -> ~ is_hex_form n ->
      (forall data, ~ is_base64_form n data) ->
      exists e, decodeAes256KeyBytes keyEncoded = Throw e /\ is_config_error e)
  /\ (trim keyEncoded <> [] -> ~ is_hex_form n ->
      forall data, is_base64_form n data -> decoded_length data <> 32%nat ->
      exists e, decodeAes256KeyBytes keyEncoded = Throw e /\ is_config_error e)
  /\ (trim keyEncoded <> [] ->
      is_hex_form n
      \/ (exists data, is_base64_form n data /\ decoded_length data = 32%nat) ->
      exists k, decodeAes256KeyBytes keyEncoded = Ok k
                /\ length k = 32%nat /\ Forall is_byte k)
  /\ (forall e, decodeAes256KeyBytes keyEncoded = Throw e -> is_config_error e)
  /\ (forall k, decodeAes256KeyBytes keyEncoded = Ok k ->
                length k = 32%nat /\ Forall is_byte k).
Proof.
  intros n.
  assert (Hthrow : forall e, decodeAes256KeyBytes keyEncoded = Throw e -> is_config_error e).
  { intros e. unfold decodeAes256KeyBytes.
    destruct (trim keyEncoded).
    - intros [= <-]. exact (config_error_prefix (js ": value is empty.")).
    - apply decode_normalized_throws. }
  assert (Hok : forall k, decodeAes256KeyBytes keyEncoded = Ok k -> is_key k).
  { intros k. unfold decodeAes256KeyBytes.
    destruct (trim keyEncoded); [discriminate | apply decode_normalized_key]. }
  assert (Hform : trim keyEncoded <> [] -> ~ is_hex_form n ->
                  forall k, decodeAes256KeyBytes keyEncoded = Ok k ->
                  exists data, is_base64_form n data /\ decoded_length data = 32%nat).
  { intros Hne Hhex k. rewrite (decode_nonempty _ Hne). fold n.
    unfold decode_normalized. destruct (hexMatch n) eqn:Hm.
    - apply hexMatch_form in Hm. contradiction.
    - apply base64_ok_form. apply normalize_clean. }
  split; [|split; [|split; [|split; [|split]]]].
  - intros Hempty. unfold decodeAes256KeyBytes. rewrite Hempty.
    split; [reflexivity | exact (config_error_prefix (js ": value is empty."))].
  - intros Hne Hhex Hnot.
    destruct (decodeAes256KeyBytes keyEncoded) as [k | e] eqn:Hdec.
    + destruct (Hform Hne Hhex k eq_refl) as [data [Hdata _]].
      destruct (Hnot data Hdata).
    + exists e. split; [reflexivity | apply Hthrow; reflexivity].
  - intros Hne Hhex data Hdata Hlen.
    destruct (decodeAes256KeyBytes keyEncoded) as [k | e] eqn:Hdec.
    + destruct (Hform Hne Hhex k eq_refl) as [data' [Hdata' Hlen']].
      rewrite (base64_form_unique n data data' Hdata Hdata') in Hlen. contradiction.
    + exists e. split; [reflexivity | apply Hthrow; reflexivity].
  - intros Hne Hgood. rewrite (decode_nonempty _ Hne). fold n.
    assert (Hsome : exists k, decode_normalized n = Ok k).
    { unfold decode_normalized. destruct (hexMatch n) eqn:Hm; [eexists; reflexivity|].
      destruct Hgood as [Hhex | [data [Hdata Hlen]]].
      - apply hexMatch_form in Hhex. congruence.
      - exact (base64_form_ok n data Hdata Hlen). }
    destruct Hsome as [k Hk]. exists k. split; [exact Hk|].
    exact (decode_normalized_key n k Hk).
  - exact Hthrow.
  - exact Hok.
Qed.

Example decode_empty_input :
  decodeAes256KeyBytes (js "  ") = Throw (Error MSG_EMPTY).
Proof. reflexivity. Qed.

Example decode_not_base64 :
  decodeAes256KeyBytes (js "not-base64!!!!") = Throw (Error MSG_NOT_BASE64).
Proof. vm_compute. reflexivity. Qed.

Example decode_16_octets :
  decodeAes256KeyBytes (js "AAECAwQFBgcICQoLDA0ODw==") = Throw (Error (MSG_NOT_32 16)).
Proof. vm_compute. reflexivity. Qed.

(* ================================================================= *)
(** * Part III: further properties of the code *)
(* ================================================================= *)

(** ** The key decoder beyond the spellings of a key *)

Lemma decode_throws_config (keyEncoded : jsstring) (e : exn) :
  decodeAes256KeyBytes keyEncoded = Throw e -> is_config_error e.
Proof.
  unfold decodeAes256KeyBytes. destruct (trim keyEncoded).
  - intros [= <-]. exact (config_error_prefix (js ": value is empty.")).
  - apply decode_normalized_throws.
Qed.

(** X1. White space never matters: two key materials that agree once
    all white space is deleted get the same result, be it a key or an
    error. *)
Theorem decodeAes256KeyBytes_ignores_spaces (a b : jsstring) :
  strip_spaces a = strip_spaces b ->
  decodeAes256KeyBytes a = decodeAes256KeyBytes b.
Proof. intros Hsame. rewrite !decode_by_stripped, Hsame. reflexivity. Qed.

Lemma decodeAes256KeyBytes_ignores_spaces_demo :
  decodeAes256KeyBytes (9 :: js "not base64 at all ")
  = decodeAes256KeyBytes (js "notbase 64atall").
Proof.
  apply (decodeAes256KeyBytes_ignores_spaces
           (9 :: js "not base64 at all ") (js "notbase 64atall")).
  reflexivity.
Defined.

(** *** Hexadecimal digits of either case *)

Lemma is_hex_digit_value (c : Z) :
  is_hex_digit c = true -> hex_value c = Some (hex_digit_value c)
                           /\ 0 <= hex_digit_value c < 16.
Proof.
  unfold is_hex_digit, hex_digit_value, hex_value.
  decide_tests; cbn [andb]; intros Hc; try discriminate Hc; split; try reflexivity; lia.
Qed.

Lemma is_hex_digit_key_char (c : Z) : is_hex_digit c = true -> is_key_char c = true.
Proof.
  intros Hc. apply is_b64_char_key_char, is_alphabet_b64_char.
  revert Hc. unfold is_hex_digit, hex_value, Base64.is_alphabet, Base64.value.
  decide_tests; cbn [andb]; intros Hc; try reflexivity; discriminate Hc.
Qed.

Lemma parseInt16_pair (a b : Z) :
  is_hex_digit a = true -> is_hex_digit b = true ->
  to_uint8 (parseInt16 [a; b]) = 16 * hex_digit_value a + hex_digit_value b.
Proof.
  intros Ha Hb. unfold parseInt16. rewrite Ha. cbn [parse_hex_digits].
  destruct (is_hex_digit_value a Ha) as [-> Hra].
  destruct (is_hex_digit_value b Hb) as [-> Hrb].
  cbn [to_uint8]. rewrite Z.mod_small by lia. lia.
Qed.

(** The loop of the hexadecimal branch reads every pair of digits. *)
Lemma read_hex_digit_pairs (n : nat) :
  forall h, length h = (2 * n)%nat -> forallb is_hex_digit h = true ->
  map (fun i => to_uint8 (parseInt16 (firstn 2 (skipn (i * 2) h)))) (seq 0 n)
  = hex_pairs h.
Proof.
  induction n as [| n IH]; intros h Hlen Hhex.
  - destruct h; [reflexivity | discriminate Hlen].
  - destruct h as [| a [| b r]]; try (simpl in Hlen; lia).
    cbn [forallb] in Hhex.
    apply andb_true_iff in Hhex. destruct Hhex as [Ha Hhex].
    apply andb_true_iff in Hhex. destruct Hhex as [Hb Hr].
    cbn [seq map hex_pairs]. rewrite <- seq_shift, map_map. f_equal.
    + cbn [Nat.mul skipn firstn]. apply parseInt16_pair; assumption.
    + rewrite <- (IH r) by (simpl in Hlen; lia || exact Hr).
      apply map_ext. intros i. reflexivity.
Qed.

Lemma startsWith_0x_hex_digits (h : jsstring) :
  forallb is_hex_digit h = true -> startsWith_0x h = false.
Proof.
  intros Hhex. destruct h as [| a [| b r]]; try reflexivity.
  cbn [forallb] in Hhex.
  apply andb_true_iff in Hhex. destruct Hhex as [_ Hhex].
  apply andb_true_iff in Hhex. destruct Hhex as [Hb _].
  cbn [startsWith_0x]. destruct (Z.eqb_spec b 120) as [-> | Hne];
    [discriminate Hb | apply andb_false_r].
Qed.

Lemma decode_normalized_hex_digits (h : jsstring) :
  length h = 64%nat -> forallb is_hex_digit h = true ->
  decode_normalized h = Ok (hex_pairs h)
  /\ decode_normalized (js "0x" ++ h) = Ok (hex_pairs h).
Proof.
  intros Hlen Hhex.
  assert (H64 : hex64 h = true) by (unfold hex64; rewrite Hlen, Hhex; reflexivity).
  pose proof (read_hex_digit_pairs 32 h Hlen Hhex) as Hread.
  split; unfold decode_normalized, hexMatch, hex_key_bytes.
  - rewrite H64, (startsWith_0x_hex_digits h Hhex). cbn [orb]. rewrite Hread.
    reflexivity.
  - change (js "0x" ++ h) with (48 :: 120 :: h). cbn [startsWith_0x skipn].
    change ((48 =? 48) && (120 =? 120)) with true. cbn [andb].
    rewrite H64, orb_true_r, Hread. reflexivity.
Qed.

(** A string of key characters is decoded as it stands. *)
Lemma decode_key_chars (rep : jsstring) :
  forallb is_key_char rep = true -> rep <> [] ->
  decodeAes256KeyBytes rep = decode_normalized rep.
Proof.
  intros Hchars Hne.
  rewrite decode_by_stripped, strip_spaces_key_chars, decode_stripped_plain by assumption.
  reflexivity.
Qed.

Lemma hex_pairs_values (h h' : jsstring) :
  map hex_digit_value h' = map hex_digit_value h -> hex_pairs h' = hex_pairs h.
Proof.
  revert h'. induction h as [| a | a b r IH] using Base64Facts.by_twos;
    intros h' Hsame.
  - destruct h'; [reflexivity | discriminate Hsame].
  - destruct h' as [| a' [| b' r']]; try discriminate Hsame; reflexivity.
  - destruct h' as [| a' [| b' r']]; try discriminate Hsame.
    cbn [map] in Hsame. injection Hsame as Ha Hb Hr.
    cbn [hex_pairs]. rewrite Ha, Hb, (IH r' Hr). reflexivity.
Qed.

(** X2. Sixty-four hexadecimal digits of either case, alone or after
    [0x], decode to the 32 octets their pairs spell; so two such
    strings whose digits have the same values, whatever their case,
    decode alike. *)
Theorem decodeAes256KeyBytes_hex_digits (h : jsstring) :
  length h = 64%nat -> forallb is_hex_digit h = true ->
  decodeAes256KeyBytes h = Ok (hex_pairs h)
  /\ decodeAes256KeyBytes (js "0x" ++ h) = Ok (hex_pairs h)
  /\ (forall h', length h' = 64%nat -> forallb is_hex_digit h' = true ->
                 map hex_digit_value h' = map hex_digit_value h ->
                 decodeAes256KeyBytes h' = decodeAes256KeyBytes h).
Proof.
  intros Hlen Hhex.
  assert (Hplain : forall x, length x = 64%nat -> forallb is_hex_digit x = true ->
                             decodeAes256KeyBytes x = Ok (hex_pairs x)).
  { intros x Hl Hx.
    rewrite decode_key_chars.
    - exact (proj1 (decode_normalized_hex_digits x Hl Hx)).
    - exact (forallb_impl _ _ _ is_hex_digit_key_char Hx).
    - exact (length_nonempty _ _ Hl). }
  split; [exact (Hplain h Hlen Hhex)|]. split.
  - rewrite decode_key_chars.
    + exact (proj2 (decode_normalized_hex_digits h Hlen Hhex)).
    + apply forallb_key_chars_app; [reflexivity|].
      exact (forallb_impl _ _ _ is_hex_digit_key_char Hhex).
    + discriminate.
  - intros h' Hlen' Hhex' Hsame.
    rewrite (Hplain h Hlen Hhex), (Hplain h' Hlen' Hhex').
    rewrite (hex_pairs_values h h' Hsame). reflexivity.
Qed.

Lemma decodeAes256KeyBytes_hex_digits_demo :
  decodeAes256KeyBytes
    (js "000102030405060708090A0B0C0D0E0F101112131415161718191A1B1C1D1E1F")
  = Ok Demo.key32.
Proof.
  apply (decodeAes256KeyBytes_hex_digits
           (js "000102030405060708090A0B0C0D0E0F101112131415161718191A1B1C1D1E1F"));
    reflexivity.
Defined.

(** *** The two base64 alphabets, mixed *)

Lemma std_char_idempotent (c : Z) : std_char (std_char c) = std_char c.
Proof.
  destruct (std_char_cases c) as [[_ E] | [[_ E] | [_ [_ E]]]]; rewrite E;
    [reflexivity | reflexivity | exact E].
Qed.

(** A test that tells neither [-] from [+] nor [_] from [/]. *)
Lemma std_char_test {B} (f : Z -> B) (c : Z) :
  f 45 = f 43 -> f 95 = f 47 -> f (std_char c) = f c.
Proof.
  intros H45 H95.
  destruct (std_char_cases c) as [[-> E] | [[-> E] | [_ [_ E]]]]; rewrite E; auto.
Qed.

Lemma strip_spaces_std (s : jsstring) :
  strip_spaces (map std_char s) = map std_char (strip_spaces s).
Proof.
  induction s as [| c r IH]; [reflexivity|].
  cbn [map strip_spaces filter]. fold (strip_spaces (map std_char r)).
  fold (strip_spaces r).
  rewrite (std_char_test is_space c) by reflexivity.
  destruct (is_space c); cbn [negb map]; rewrite IH; reflexivity.
Qed.

Lemma startsWith1_std (s : jsstring) (q : Z) :
  (45 =? q) = (43 =? q) -> (95 =? q) = (47 =? q) ->
  startsWith1 (map std_char s) q = startsWith1 s q.
Proof.
  intros H45 H95. destruct s as [| c r]; [reflexivity|].
  cbn [map startsWith1].
  exact (std_char_test (fun x => x =? q) c H45 H95).
Qed.

Lemma is_quoted_std (s : jsstring) : is_quoted (map std_char s) = is_quoted s.
Proof.
  unfold is_quoted, endsWith1. rewrite <- map_rev.
  rewrite !startsWith1_std by reflexivity. reflexivity.
Qed.

Lemma slice_1_m1_std (s : jsstring) :
  slice_1_m1 (map std_char s) = map std_char (slice_1_m1 s).
Proof.
  unfold slice_1_m1. rewrite tl_map, !removelast_firstn_len, length_map, firstn_map.
  reflexivity.
Qed.

Lemma parse_hex_digits_std (s : jsstring) :
  forall acc, parse_hex_digits acc (map std_char s) = parse_hex_digits acc s.
Proof.
  induction s as [| c r IH]; intros acc; [reflexivity|].
  cbn [map parse_hex_digits].
  rewrite (std_char_test hex_value c) by reflexivity.
  destruct (hex_value c); [apply IH | reflexivity].
Qed.

Lemma parseInt16_std (s : jsstring) :
  parseInt16 (map std_char s) = parseInt16 s.
Proof.
  destruct s as [| c r]; [reflexivity|].
  unfold parseInt16. cbn [map].
  rewrite (std_char_test is_hex_digit c) by reflexivity.
  change (std_char c :: map std_char r) with (map std_char (c :: r)).
  rewrite parse_hex_digits_std. reflexivity.
Qed.

Lemma forallb_std (f : Z -> bool) (s : jsstring) :
  f 45 = f 43 -> f 95 = f 47 -> forallb f (map std_char s) = forallb f s.
Proof.
  intros H45 H95. induction s as [| c r IH]; [reflexivity|].
  cbn [map forallb]. rewrite (std_char_test f c H45 H95), IH. reflexivity.
Qed.

Lemma hex64_std (s : jsstring) : hex64 (map std_char s) = hex64 s.
Proof.
  unfold hex64. rewrite length_map, (forallb_std is_hex_digit) by reflexivity.
  reflexivity.
Qed.

Lemma startsWith_0x_std (s : jsstring) :
  startsWith_0x (map std_char s) = startsWith_0x s.
Proof.
  destruct s as [| a [| b r]]; try reflexivity. cbn [map startsWith_0x].
  rewrite (std_char_test (fun x => x =? 48) a), (std_char_test (fun x => x =? 120) b)
    by reflexivity.
  reflexivity.
Qed.

Lemma decode_normalized_std (n : jsstring) :
  decode_normalized (map std_char n) = decode_normalized n.
Proof.
  unfold decode_normalized.
  assert (Hmatch : hexMatch (map std_char n) = hexMatch n).
  { unfold hexMatch. rewrite hex64_std, startsWith_0x_std, skipn_map, hex64_std.
    reflexivity. }
  rewrite Hmatch. destruct (hexMatch n).
  - f_equal. unfold hex_key_bytes. rewrite startsWith_0x_std.
    apply map_ext. intros i.
    destruct (startsWith_0x n);
      rewrite !skipn_map, firstn_map, parseInt16_std; reflexivity.
  - unfold base64_key_bytes. cbv zeta. rewrite !url_to_std_map, map_map.
    rewrite (map_ext _ _ std_char_idempotent). reflexivity.
Qed.

(** X3. The characters [-] and [+], and [_] and [/], are
    interchangeable anywhere in the key material: writing the one for
    the other changes neither the key obtained nor the error. *)
Theorem decodeAes256KeyBytes_mixed_alphabets (keyEncoded : jsstring) :
  decodeAes256KeyBytes (url_to_std keyEncoded) = decodeAes256KeyBytes keyEncoded.
Proof.
  rewrite !decode_by_stripped, url_to_std_map, strip_spaces_std.
  unfold decode_stripped.
  destruct (strip_spaces keyEncoded) as [| c r] eqn:Hs; [reflexivity|].
  rewrite is_quoted_std. cbn [map].
  change (std_char c :: map std_char r) with (map std_char (c :: r)).
  destruct (is_quoted (c :: r)).
  - rewrite slice_1_m1_std. apply decode_normalized_std.
  - apply decode_normalized_std.
Qed.

(** *** Nothing but key characters is accepted *)

Lemma hex_form_key_chars (n : jsstring) :
  is_hex_form n -> forallb is_key_char n = true.
Proof.
  intros [h [[-> | ->] [_ Hhex]]].
  - exact (forallb_impl _ _ _ is_hex_digit_key_char Hhex).
  - apply forallb_key_chars_app; [reflexivity|].
    exact (forallb_impl _ _ _ is_hex_digit_key_char Hhex).
Qed.

Lemma base64_form_key_chars (n data : jsstring) :
  is_base64_form n data -> forallb is_key_char n = true.
Proof.
  intros [Hdata [_ Hn]].
  pose proof (forallb_impl _ _ _ is_b64_char_key_char Hdata) as Hchars.
  destruct Hn as [-> | ->]; [exact Hchars|].
  apply forallb_key_chars_app; [exact Hchars|].
  apply forallb_forall. intros c Hin. apply repeat_spec in Hin. subst c. reflexivity.
Qed.

Lemma decode_ok_key_chars (keyEncoded : jsstring) (k : bytes) :
  decodeAes256KeyBytes keyEncoded = Ok k ->
  forallb is_key_char (normalize keyEncoded) = true.
Proof.
  intros Hok.
  assert (Hne : trim keyEncoded <> []).
  { intros Hempty. unfold decodeAes256KeyBytes in Hok. rewrite Hempty in Hok.
    discriminate Hok. }
  rewrite (decode_nonempty _ Hne) in Hok. unfold decode_normalized in Hok.
  destruct (hexMatch (normalize keyEncoded)) eqn:Hm.
  - apply hex_form_key_chars, hexMatch_form. exact Hm.
  - destruct (base64_ok_form _ _ (normalize_clean keyEncoded) Hok) as [data [Hform _]].
    exact (base64_form_key_chars _ _ Hform).
Qed.

(** X4. Key material whose normalised form (trimmed, one layer of
    matching quotes removed, white space deleted) holds a code unit
    that is neither of a base64 alphabet nor [=] is refused with a
    configuration error: so is material in two layers of quotes, or
    between quotes that do not match. *)
Theorem decodeAes256KeyBytes_refuses_other_characters
    (keyEncoded : jsstring) (c : Z) :
  In c (normalize keyEncoded) -> is_key_char c = false ->
  exists e, decodeAes256KeyBytes keyEncoded = Throw e /\ is_config_error e.
Proof.
  intros Hin Hc.
  destruct (decodeAes256KeyBytes keyEncoded) as [k | e] eqn:Hdec.
  - pose proof (decode_ok_key_chars keyEncoded k Hdec) as Hall.
    rewrite (proj1 (forallb_forall _ _) Hall c Hin) in Hc. discriminate Hc.
  - exists e. split; [reflexivity | exact (decode_throws_config _ _ Hdec)].
Qed.

(** A base64 key between two layers of double quotes. *)
Lemma decodeAes256KeyBytes_refuses_other_characters_demo :
  exists e,
    decodeAes256KeyBytes
      ([34; 34] ++ js "AAECAwQFBgcICQoLDA0ODxAREhMUFRYXGBkaGxwdHh8=" ++ [34; 34])
    = Throw e /\ is_config_error e.
Proof.
  apply (decodeAes256KeyBytes_refuses_other_characters
           ([34; 34] ++ js "AAECAwQFBgcICQoLDA0ODxAREhMUFRYXGBkaGxwdHh8=" ++ [34; 34])
           34).
  - vm_compute. left. reflexivity.
  - reflexivity.
Defined.

(** ** UTF-8 on arbitrary strings *)

Module Utf8More.
Import Utf8.

(** A string starts with a surrogate pair, or its first code unit
    stands for itself or for U+FFFD. *)
Lemma first_scalar (c : Z) (r : jsstring) :
  (exists d r', r = d :: r' /\ is_high c = true /\ is_low d = true)
  \/ (scalar_values (c :: r) = lone c :: scalar_values r
      /\ toWellFormed (c :: r) = lone c :: toWellFormed r).
Proof.
  unfold lone. cbn [scalar_values toWellFormed].
  destruct (is_high c) eqn:Hh; cbn [orb].
  - destruct r as [| d r']; [right; split; reflexivity|].
    destruct (is_low d) eqn:Hl.
    + left. exists d, r'. auto.
    + right. split; reflexivity.
  - right. destruct (is_low c); split; reflexivity.
Qed.

Lemma scalar_induction (P : jsstring -> Prop) :
  P [] ->
  (forall c r,
      scalar_values (c :: r) = lone c :: scalar_values r ->
      toWellFormed (c :: r) = lone c :: toWellFormed r ->
      P r -> P (c :: r)) ->
  (forall c d r, is_high c = true -> is_low d = true -> P r -> P (c :: d :: r)) ->
  forall s, P s.
Proof.
  intros Hnil Hone Hpair s.
  assert (Hlen : forall n s, (length s <= n)%nat -> P s).
  { clear s. induction n as [| n IH]; intros s Hle.
    - destruct s; [exact Hnil | simpl in Hle; lia].
    - destruct s as [| c r]; [exact Hnil|]. simpl in Hle.
      destruct (first_scalar c r) as [[d [r' [-> [Hh Hl]]]] | [Hs Hw]].
      + apply Hpair; auto. apply IH. simpl in Hle. lia.
      + apply Hone; auto. apply IH. lia. }
  exact (Hlen (length s) s (le_n _)).
Qed.

Lemma lone_scalar (c : Z) : is_code_unit c -> is_scalar (lone c) /\ lone c < 0x10000.
Proof.
  unfold is_code_unit, lone, is_scalar, REPLACEMENT. intros Hc.
  destruct (is_high c) eqn:Hh; [cbn [orb]; lia|].
  destruct (is_low c) eqn:Hl; [cbn [orb]; lia|]. cbn [orb].
  unfold is_high in Hh. unfold is_low in Hl.
  apply andb_false_iff in Hh. apply andb_false_iff in Hl.
  rewrite !Z.leb_gt in Hh, Hl. lia.
Qed.

Lemma scalar_values_are_scalars (s : jsstring) :
  Forall is_code_unit s -> Forall is_scalar (scalar_values s).
Proof.
  induction s as [| c r Hs _ IH | c d r Hh Hl IH] using scalar_induction; intros Hall.
  - constructor.
  - inversion_clear Hall as [| ? ? Hc Hr]. rewrite Hs.
    constructor; [exact (proj1 (lone_scalar c Hc)) | exact (IH Hr)].
  - inversion_clear Hall as [| ? ? _ Hr]. inversion_clear Hr as [| ? ? _ Hr'].
    rewrite (Utf8Facts.scalar_values_pair c d r Hh Hl).
    constructor; [|exact (IH Hr')].
    apply Utf8Facts.is_high_range in Hh. apply Utf8Facts.is_low_range in Hl.
    unfold is_scalar. lia.
Qed.

Lemma toWellFormed_pair (c d : Z) (r : jsstring) :
  is_high c = true -> is_low d = true ->
  toWellFormed (c :: d :: r) = c :: d :: toWellFormed r.
Proof. intros Hh Hl. cbn [toWellFormed]. rewrite Hh, Hl. reflexivity. Qed.

(** The code units of the scalar values are the well-formed string. *)
Lemma code_units_toWellFormed (s : jsstring) :
  Forall is_code_unit s -> flat_map code_units (scalar_values s) = toWellFormed s.
Proof.
  induction s as [| c r Hs Hw IH | c d r Hh Hl IH] using scalar_induction; intros Hall.
  - reflexivity.
  - inversion_clear Hall as [| ? ? Hc Hr]. rewrite Hs, Hw. cbn [flat_map].
    rewrite (IH Hr). unfold code_units.
    destruct (Z.ltb_spec (lone c) 0x10000) as [_ | Hge]; [reflexivity|].
    pose proof (proj2 (lone_scalar c Hc)). lia.
  - inversion_clear Hall as [| ? ? _ Hr]. inversion_clear Hr as [| ? ? _ Hr'].
    rewrite (Utf8Facts.scalar_values_pair c d r Hh Hl), (toWellFormed_pair c d r Hh Hl).
    cbn [flat_map]. rewrite (IH Hr'). unfold code_units.
    apply Utf8Facts.is_high_range in Hh. apply Utf8Facts.is_low_range in Hl.
    destruct (Z.ltb_spec (0x10000 + (c - 0xD800) * 0x400 + (d - 0xDC00)) 0x10000);
      [lia|].
    cbn [app]. f_equal; [|f_equal]; arith.
Qed.

(** Dropping the mark before or after the conversion is the same. *)
Lemma code_units_strip_bom (cps : list Z) :
  Forall is_scalar cps ->
  flat_map code_units (strip_bom cps) = drop_bom (flat_map code_units cps).
Proof.
  intros Hall. destruct Hall as [| cp r Hcp _]; [reflexivity|].
  cbn [strip_bom flat_map].
  destruct (Z.eqb_spec cp BOM) as [-> | Hne].
  - change (code_units BOM) with [BOM]. cbn [app drop_bom].
    rewrite Z.eqb_refl. reflexivity.
  - cbn [flat_map].
    assert (Hhead : exists u t, code_units cp = u :: t /\ u <> BOM).
    { unfold code_units. unfold is_scalar in Hcp. unfold BOM in *.
      destruct (Z.ltb_spec cp 0x10000).
      - exists cp, []. split; [reflexivity | exact Hne].
      - eexists _, _. split; [reflexivity | arith]. }
    destruct Hhead as [u [t [-> Hu]]]. cbn [app drop_bom].
    destruct (Z.eqb_spec u BOM); [contradiction | reflexivity].
Qed.

(** What [TextDecoder] makes of what [TextEncoder] made of a string. *)
Lemma decode_encode_any (s : jsstring) :
  Forall is_code_unit s -> decode (encode s) = drop_bom (toWellFormed s).
Proof.
  intros Hall. unfold decode, encode.
  pose proof (scalar_values_are_scalars s Hall) as Hsc.
  rewrite (Utf8Facts.run_encode_scalars _ Hsc), (code_units_strip_bom _ Hsc).
  rewrite (code_units_toWellFormed s Hall). reflexivity.
Qed.

Lemma length_encode_scalar (cp : Z) :
  (cp < 0x10000 -> (1 <= length (encode_scalar cp) <= 3)%nat)
  /\ (0x10000 <= cp -> length (encode_scalar cp) = 4%nat).
Proof.
  unfold encode_scalar.
  destruct (Z.ltb_spec cp 0x80); [cbn [length]; split; intros; lia|].
  destruct (Z.ltb_spec cp 0x800); [cbn [length]; split; intros; lia|].
  destruct (Z.ltb_spec cp 0x10000); cbn [length]; split; intros; lia.
Qed.

(** One to three octets for every code unit. *)
Lemma length_encode (s : jsstring) :
  Forall is_code_unit s ->
  (length s <= length (encode s) <= 3 * length s)%nat.
Proof.
  unfold encode.
  induction s as [| c r Hs _ IH | c d r Hh Hl IH] using scalar_induction; intros Hall.
  - simpl. lia.
  - inversion_clear Hall as [| ? ? Hc Hr]. rewrite Hs. cbn [flat_map length].
    rewrite length_app. specialize (IH Hr).
    pose proof (proj1 (length_encode_scalar (lone c)) (proj2 (lone_scalar c Hc))).
    lia.
  - inversion_clear Hall as [| ? ? _ Hr]. inversion_clear Hr as [| ? ? _ Hr'].
    rewrite (Utf8Facts.scalar_values_pair c d r Hh Hl). cbn [flat_map length].
    rewrite length_app. specialize (IH Hr').
    apply Utf8Facts.is_high_range in Hh. apply Utf8Facts.is_low_range in Hl.
    rewrite (proj2 (length_encode_scalar _)) by lia. lia.
Qed.

(** ASCII text is its own encoding. *)
Lemma encode_ascii (s : jsstring) : forallb is_ascii s = true -> encode s = s.
Proof.
  unfold encode. induction s as [| c r IH]; [reflexivity|]. intros Hall.
  cbn [forallb] in Hall. apply andb_true_iff in Hall. destruct Hall as [Hc Hr].
  unfold is_ascii in Hc. apply andb_true_iff in Hc. destruct Hc as [H0 H1].
  apply Z.leb_le in H0. apply Z.ltb_lt in H1.
  rewrite Utf8Facts.scalar_values_bmp.
  - cbn [flat_map]. rewrite (IH Hr). unfold encode_scalar.
    destruct (Z.ltb_spec c 0x80); [reflexivity | lia].
  - destruct (is_high c) eqn:E; [|reflexivity].
    apply Utf8Facts.is_high_range in E. lia.
  - apply Utf8Facts.is_bmp_scalar_range. lia.
Qed.

End Utf8More.

(** ** [encrypt] and [decrypt] beyond the round trip *)

Section CipherMore.
Context `{WebCrypto}.

Lemma importKey_of_decode (keyBase64 : jsstring) (keyBytes : bytes) :
  decodeAes256KeyBytes keyBase64 = Ok keyBytes ->
  importKey keyBase64 = Ok (mkKey keyBytes).
Proof. intros Hkey. unfold importKey. rewrite Hkey. reflexivity. Qed.

(** X5. With key material that does not decode, [encrypt] and
    [decrypt] both fail with the decoder's configuration error,
    whatever the plaintext or the blob, and [encrypt] draws no
    entropy. *)
Theorem bad_key_material_stops_both
    (plaintext keyBase64 : jsstring) (encrypted : bytes) (e : exn) (pos : nat) :
  decodeAes256KeyBytes keyBase64 = Throw e ->
  encrypt plaintext keyBase64 pos = (Throw e, pos)
  /\ decrypt encrypted keyBase64 = Throw e
  /\ is_config_error e.
Proof.
  intros Hbad. unfold encrypt, decrypt, bind, lift, importKey. rewrite Hbad.
  repeat split. exact (decode_throws_config _ _ Hbad).
Qed.

(** X6. A blob of fewer than 28 octets (12 of nonce and 16 of tag)
    is never decrypted: under key material that decodes, [decrypt]
    fails with the decryption error. *)
Theorem decrypt_needs_28_octets
    (encrypted : bytes) (keyBase64 : jsstring) (keyBytes : bytes) :
  decodeAes256KeyBytes keyBase64 = Ok keyBytes ->
  (length encrypted < 28)%nat ->
  decrypt encrypted keyBase64 = Throw OperationError.
Proof.
  intros Hkey Hshort.
  rewrite (decrypt_unfold _ _ _ (importKey_of_decode _ _ Hkey)).
  unfold subtle_decrypt.
  replace (length (skipn 12 encrypted) <? TAG_LENGTH)%nat with true; [reflexivity|].
  symmetry. apply Nat.ltb_lt. rewrite length_skipn. unfold TAG_LENGTH. lia.
Qed.

Lemma seq_from (pos n : nat) :
  forall a, map (fun i => (pos + i)%nat) (seq a n) = seq (pos + a) n.
Proof.
  induction n as [| n IH]; intros a; [reflexivity|].
  cbn [seq map]. rewrite IH, Nat.add_succ_r. reflexivity.
Qed.

(** The nonce is the twelve octets of entropy from [pos] on. *)
Lemma nonce_at_positions (pos : nat) :
  nonce_at pos = map (fun i => entropy i mod 256) (seq pos 12).
Proof.
  unfold nonce_at, IV_LENGTH.
  replace (seq pos 12) with (map (fun i => (pos + i)%nat) (seq 0 12))
    by (rewrite seq_from, Nat.add_0_r; reflexivity).
  rewrite map_map. reflexivity.
Qed.

(** X7. Two calls of [encrypt] in a row take their nonces from
    successive stretches of the entropy source, octets [pos .. pos+11]
    and [pos+12 .. pos+23]: the second call never reads again what the
    first one drew. *)
Theorem encrypt_twice_fresh_nonces
    (first second keyBase64 : jsstring) (keyBytes : bytes) (pos : nat) :
  decodeAes256KeyBytes keyBase64 = Ok keyBytes ->
  exists a b,
    encrypt_twice first second keyBase64 pos = (Ok (a, b), (pos + 24)%nat)
    /\ firstn 12 a = map (fun i => entropy i mod 256) (seq pos 12)
    /\ firstn 12 b = map (fun i => entropy i mod 256) (seq (pos + 12) 12).
Proof.
  intros Hkey. pose proof (importKey_of_decode _ _ Hkey) as Himport.
  unfold encrypt_twice, bind, ret.
  rewrite (encrypt_unfold first _ _ pos Himport).
  rewrite (encrypt_unfold second _ _ (pos + 12) Himport).
  eexists _, _. split; [f_equal; lia|].
  rewrite <- !nonce_at_positions. split.
  - rewrite <- (length_nonce_at pos) at 1. apply firstn_prefix.
  - rewrite <- (length_nonce_at (pos + 12)) at 1. apply firstn_prefix.
Qed.

(** X8. On every string of code units [decrypt] after [encrypt] gives
    the string made well-formed (each unpaired surrogate replaced by
    U+FFFD) and without its leading U+FEFF, if it had one. *)
Theorem decrypt_encrypt_any_string
    (plaintext keyBase64 : jsstring) (keyBytes : bytes) (pos : nat) :
  decodeAes256KeyBytes keyBase64 = Ok keyBytes ->
  Forall is_code_unit plaintext ->
  exists encrypted,
    encrypt plaintext keyBase64 pos = (Ok encrypted, (pos + 12)%nat)
    /\ decrypt encrypted keyBase64 = Ok (drop_bom (toWellFormed plaintext)).
Proof.
  intros Hkey Hunits.
  destruct (decrypt_encrypt_text plaintext keyBase64 _ pos (importKey_of_decode _ _ Hkey))
    as [encrypted [Henc Hdec]].
  exists encrypted. split; [exact Henc|].
  rewrite Hdec, (Utf8More.decode_encode_any plaintext Hunits). reflexivity.
Qed.

(** X9. The blob is 28 octets longer than the UTF-8 encoding of the
    plaintext, the 12 octets of the nonce and the 16 of the tag: so
    between [28 + n] and [28 + 3 * n] octets for a plaintext of [n]
    code units, and exactly [28 + n] for ASCII text such as a token. *)
Theorem encrypt_blob_length
    (plaintext keyBase64 : jsstring) (keyBytes : bytes) (pos : nat) :
  decodeAes256KeyBytes keyBase64 = Ok keyBytes ->
  Forall is_code_unit plaintext ->
  exists encrypted,
    encrypt plaintext keyBase64 pos = (Ok encrypted, (pos + 12)%nat)
    /\ length encrypted = (28 + length (Utf8.encode plaintext))%nat
    /\ (28 + length plaintext <= length encrypted <= 28 + 3 * length plaintext)%nat
    /\ (forallb is_ascii plaintext = true ->
        length encrypted = (28 + length plaintext)%nat).
Proof.
  intros Hkey Hunits. eexists.
  split; [exact (encrypt_unfold _ _ _ pos (importKey_of_decode _ _ Hkey))|].
  rewrite length_app, length_nonce_at, length_subtle_encrypt. unfold TAG_LENGTH.
  split; [lia|]. split.
  - pose proof (Utf8More.length_encode plaintext Hunits). lia.
  - intros Hascii. rewrite (Utf8More.encode_ascii plaintext Hascii). lia.
Qed.

(** X10. What was encrypted under one key material is decrypted under
    any other key material that decodes to the same key: the spelling
    of the secret may change between the two calls. *)
Theorem decrypt_under_other_spelling
    (plaintext keyBase64 otherBase64 : jsstring) (keyBytes : bytes) (pos : nat) :
  decodeAes256KeyBytes keyBase64 = Ok keyBytes ->
  decodeAes256KeyBytes otherBase64 = Ok keyBytes ->
  Utf8.well_formed plaintext = true ->
  startsWith1 plaintext Utf8.BOM = false ->
  exists encrypted,
    encrypt plaintext keyBase64 pos = (Ok encrypted, (pos + 12)%nat)
    /\ decrypt encrypted otherBase64 = Ok plaintext.
Proof.
  intros Hkey Hother Hwf Hbom. eexists.
  split; [exact (encrypt_unfold _ _ _ pos (importKey_of_decode _ _ Hkey))|].
  rewrite (decrypt_unfold _ _ _ (importKey_of_decode _ _ Hother)).
  rewrite <- (length_nonce_at pos), firstn_prefix, skipn_prefix.
  rewrite subtle_decrypt_encrypt, Utf8Facts.decode_encode by assumption.
  reflexivity.
Qed.

End CipherMore.

Lemma decode_demo_bad_key :
  decodeAes256KeyBytes (js "not-base64!!!!") = Throw (Error MSG_NOT_BASE64).
Proof. vm_compute. reflexivity. Qed.

Lemma bad_key_material_stops_both_demo :
  @encrypt Demo.crypto (js "hi") (js "not-base64!!!!") 5%nat
  = (Throw (Error MSG_NOT_BASE64), 5%nat)
  /\ @decrypt Demo.crypto [1; 2; 3] (js "not-base64!!!!") = Throw (Error MSG_NOT_BASE64)
  /\ is_config_error (Error MSG_NOT_BASE64).
Proof.
  apply (@bad_key_material_stops_both Demo.crypto (js "hi") (js "not-base64!!!!")
           [1; 2; 3] (Error MSG_NOT_BASE64) 5%nat).
  exact decode_demo_bad_key.
Defined.

Lemma decrypt_needs_28_octets_demo :
  @decrypt Demo.crypto (repeat 0 27) Demo.key32_hex = Throw OperationError.
Proof.
  apply (@decrypt_needs_28_octets Demo.crypto (repeat 0 27) Demo.key32_hex Demo.key32
           decode_demo_key).
  simpl. lia.
Defined.

Lemma encrypt_twice_fresh_nonces_demo :
  exists a b,
    @encrypt_twice Demo.crypto (js "one") (js "two") Demo.key32_hex 0%nat
    = (Ok (a, b), 24%nat)
    /\ firstn 12 a = map (fun i => @entropy Demo.crypto i mod 256) (seq 0 12)
    /\ firstn 12 b = map (fun i => @entropy Demo.crypto i mod 256) (seq 12 12).
Proof.
  exact (@encrypt_twice_fresh_nonces Demo.crypto (js "one") (js "two") Demo.key32_hex
           Demo.key32 0%nat decode_demo_key).
Defined.

(** A plaintext with a mark in front and an unpaired surrogate inside. *)
Lemma decrypt_encrypt_any_string_demo :
  exists encrypted,
    @encrypt Demo.crypto [0xFEFF; 0x61; 0xDC00; 0x62] Demo.key32_hex 0%nat
    = (Ok encrypted, 12%nat)
    /\ @decrypt Demo.crypto encrypted Demo.key32_hex = Ok [0x61; 0xFFFD; 0x62].
Proof.
  apply (@decrypt_encrypt_any_string Demo.crypto [0xFEFF; 0x61; 0xDC00; 0x62]
           Demo.key32_hex Demo.key32 0%nat decode_demo_key).
  repeat (constructor; [unfold is_code_unit; lia|]). constructor.
Defined.

Lemma encrypt_blob_length_demo :
  exists encrypted,
    @encrypt Demo.crypto (js "mcp_0123") Demo.key32_hex 0%nat = (Ok encrypted, 12%nat)
    /\ length encrypted = (28 + length (Utf8.encode (js "mcp_0123")))%nat
    /\ (28 + 8 <= length encrypted <= 28 + 3 * 8)%nat
    /\ (forallb is_ascii (js "mcp_0123") = true -> length encrypted = (28 + 8)%nat).
Proof.
  apply (@encrypt_blob_length Demo.crypto (js "mcp_0123") Demo.key32_hex Demo.key32
           0%nat decode_demo_key).
  repeat (constructor; [unfold is_code_unit; simpl; lia|]). constructor.
Defined.

Lemma decode_demo_key_base64 :
  decodeAes256KeyBytes (js "AAECAwQFBgcICQoLDA0ODxAREhMUFRYXGBkaGxwdHh8") = Ok Demo.key32.
Proof. vm_compute. reflexivity. Qed.

(** Encrypted under the hexadecimal spelling, decrypted under the
    unpadded base64 one. *)
Lemma decrypt_under_other_spelling_demo :
  exists encrypted,
    @encrypt Demo.crypto (js "hi") Demo.key32_hex 0%nat = (Ok encrypted, 12%nat)
    /\ @decrypt Demo.crypto encrypted (js "AAECAwQFBgcICQoLDA0ODxAREhMUFRYXGBkaGxwdHh8")
       = Ok (js "hi").
Proof.
  apply (@decrypt_under_other_spelling Demo.crypto (js "hi") Demo.key32_hex
           (js "AAECAwQFBgcICQoLDA0ODxAREhMUFRYXGBkaGxwdHh8") Demo.key32 0%nat
           decode_demo_key decode_demo_key_base64); reflexivity.
Defined.

(** ** Hexadecimal strings of digests and tokens *)

Lemma be_bytes_are_bytes (n : nat) (v : Z) : Forall is_byte (be_bytes n v).
Proof.
  unfold be_bytes. apply Forall_forall. intros b Hin. apply in_map_iff in Hin.
  destruct Hin as [i [<- _]]. apply Z.mod_pos_bound. lia.
Qed.

(** Reading the digits of a rendering pairwise gives the octets. *)
Lemma hex_pairs_hex_of_bytes (bs : bytes) :
  Forall is_byte bs -> hex_pairs (hex_of_bytes bs) = bs.
Proof.
  induction 1 as [| b bs Hb _ IH]; [reflexivity|].
  unfold hex_of_bytes in *. cbn [flat_map]. rewrite (byte_hex_digits b Hb).
  cbn [app hex_pairs]. rewrite IH. f_equal.
  unfold is_byte in Hb. unfold hex_digit_value.
  rewrite !hex_value_digit_char by arith. arith.
Qed.

Lemma hex_of_bytes_injective (a b : bytes) :
  Forall is_byte a -> Forall is_byte b -> hex_of_bytes a = hex_of_bytes b -> a = b.
Proof.
  intros Ha Hb Hsame.
  rewrite <- (hex_pairs_hex_of_bytes a Ha), <- (hex_pairs_hex_of_bytes b Hb), Hsame.
  reflexivity.
Qed.

Section HashFacts.
Context `{Hashing}.

Lemma length_subtle_digest (data : bytes) : length (subtle_digest data) = 32%nat.
Proof. apply length_be_bytes. Qed.

Lemma length_subtle_sign (keyData data : bytes) :
  length (subtle_sign keyData data) = 32%nat.
Proof. apply length_be_bytes. Qed.

(** X11. [sha256] returns 64 lower-case hexadecimal digits, and two
    of its results are equal exactly when the digests are: the
    rendering loses nothing of the 32 octets. *)
Theorem sha256_hex_digest (data : jsstring) :
  length (sha256 data) = 64%nat
  /\ forallb is_lower_hex (sha256 data) = true
  /\ hex_pairs (sha256 data) = subtle_digest (Utf8.encode data)
  /\ (forall other,
        sha256 data = sha256 other
        <-> subtle_digest (Utf8.encode data) = subtle_digest (Utf8.encode other)).
Proof.
  unfold sha256. cbv zeta.
  pose proof (be_bytes_are_bytes DIGEST_LENGTH (sha256_word (Utf8.encode data))) as Hb.
  fold (subtle_digest (Utf8.encode data)) in Hb.
  destruct (hex_of_bytes_shape _ Hb) as [Hlen Hhex].
  rewrite length_subtle_digest in Hlen.
  split; [exact Hlen|]. split; [exact Hhex|].
  split; [exact (hex_pairs_hex_of_bytes _ Hb)|].
  intros other. split.
  - apply hex_of_bytes_injective; [exact Hb | apply be_bytes_are_bytes].
  - intros ->. reflexivity.
Qed.

Lemma encode_nonempty (s : jsstring) : s <> [] -> Utf8.encode s <> [].
Proof.
  intros Hne. destruct s as [| c r]; [contradiction|]. unfold Utf8.encode.
  assert (Hsome : exists cp cps, Utf8.scalar_values (c :: r) = cp :: cps).
  { destruct (Utf8More.first_scalar c r) as [[d [r' [-> [Hh Hl]]]] | [Hs _]].
    - rewrite (Utf8Facts.scalar_values_pair c d r' Hh Hl). eauto.
    - rewrite Hs. eauto. }
  destruct Hsome as [cp [cps ->]]. cbn [flat_map].
  intros Hnil. apply app_eq_nil in Hnil. destruct Hnil as [Hnil _].
  pose proof (Utf8More.length_encode_scalar cp) as [Hlow Hhigh].
  destruct (Z.ltb_spec cp 0x10000) as [Hlt | Hge].
  - specialize (Hlow Hlt). rewrite Hnil in Hlow. simpl in Hlow. lia.
  - specialize (Hhigh Hge). rewrite Hnil in Hhigh. discriminate Hhigh.
Qed.

(** X12. Under a secret that is not empty [hmacSha256] returns 64
    lower-case hexadecimal digits, which spell the 32 octets of the
    signature. *)
Theorem hmacSha256_hex_mac (data secret : jsstring) :
  secret <> [] ->
  exists mac,
    hmacSha256 data secret = Some mac
    /\ length mac = 64%nat
    /\ forallb is_lower_hex mac = true
    /\ hex_pairs mac = subtle_sign (Utf8.encode secret) (Utf8.encode data).
Proof.
  intros Hne. unfold hmacSha256. cbv zeta.
  pose proof (encode_nonempty secret Hne) as Hkey.
  destruct (Utf8.encode secret) as [| k ks] eqn:Hk; [contradiction|].
  eexists. split; [reflexivity|].
  pose proof (be_bytes_are_bytes DIGEST_LENGTH
                (hmac_sha256_word (k :: ks) (Utf8.encode data))) as Hb.
  fold (subtle_sign (k :: ks) (Utf8.encode data)) in Hb.
  destruct (hex_of_bytes_shape _ Hb) as [Hlen Hhex].
  rewrite length_subtle_sign in Hlen.
  split; [exact Hlen|]. split; [exact Hhex|].
  exact (hex_pairs_hex_of_bytes _ Hb).
Qed.

End HashFacts.

Lemma hmacSha256_hex_mac_demo :
  exists mac,
    @hmacSha256 DemoHash.hashing (js "payload") (js "s3cret") = Some mac
    /\ length mac = 64%nat
    /\ forallb is_lower_hex mac = true
    /\ hex_pairs mac
       = @subtle_sign DemoHash.hashing (Utf8.encode (js "s3cret")) (Utf8.encode (js "payload")).
Proof.
  apply (@hmacSha256_hex_mac DemoHash.hashing (js "payload") (js "s3cret")).
  discriminate.
Defined.

Section TokenMore.
Context `{WebCrypto}.

(** X13. A token spells the random octets it was made of: reading
    its digits pairwise gives back the [n] octets drawn, so two tokens
    are equal only if the draws were; and a token of 32 octets is key
    material that decodes to those octets. *)
Theorem generateToken_spells_entropy (n pos : nat) :
  Z.of_nat n <= 65536 ->
  exists token,
    generateToken n pos = (Ok token, (pos + n)%nat)
    /\ hex_pairs token = map (fun i => entropy (pos + i) mod 256) (seq 0 n)
    /\ (n = 32%nat ->
        decodeAes256KeyBytes token
        = Ok (map (fun i => entropy (pos + i) mod 256) (seq 0 n))).
Proof.
  intros Hn. unfold generateToken, bind, ret.
  rewrite (getRandomValues_within_quota n pos Hn).
  pose proof (random_octets_are_bytes n pos) as Hbytes.
  eexists. split; [reflexivity|].
  split; [exact (hex_pairs_hex_of_bytes _ Hbytes)|].
  intros Hn32. subst n.
  assert (Hkey : is_key (map (fun i => entropy (pos + i) mod 256) (seq 0 32))).
  { split; [rewrite length_map, length_seq; reflexivity | exact Hbytes]. }
  destruct (hex_of_bytes_shape _ Hbytes) as [Hlen Hhex].
  rewrite length_map, length_seq in Hlen.
  rewrite decode_key_chars.
  - exact (decode_normalized_hex _ Hkey).
  - exact (forallb_impl _ _ _ is_lower_hex_key_char Hhex).
  - exact (length_nonempty _ _ Hlen).
Qed.

End TokenMore.

Lemma generateToken_spells_entropy_demo :
  exists token,
    @generateToken Demo.crypto 32 7%nat = (Ok token, 39%nat)
    /\ hex_pairs token = map (fun i => @entropy Demo.crypto (7 + i) mod 256) (seq 0 32)
    /\ (32%nat = 32%nat ->
        decodeAes256KeyBytes token
        = Ok (map (fun i => @entropy Demo.crypto (7 + i) mod 256) (seq 0 32))).
Proof.
  apply (@generateToken_spells_entropy Demo.crypto 32 7%nat). lia.
Defined.

(** ** [maskApiKey]: what the mask depends on *)

(** X14. The mask of a key depends on nothing but its length, its
    first 4 and its last 4 code units: keys that agree on these have
    the same mask, whatever stands between.  Masking a mask changes
    nothing. *)
Theorem maskApiKey_hides_middle (key : jsstring) :
  (forall other,
      length other = length key ->
      firstn 4 other = firstn 4 key ->
      skipn (length key - 4) other = skipn (length key - 4) key ->
      maskApiKey other = maskApiKey key)
  /\ maskApiKey (maskApiKey key) = maskApiKey key.
Proof.
  split.
  - intros other Hlen Hfirst Hlast. unfold maskApiKey.
    rewrite Hlen, Hfirst, Hlast. reflexivity.
  - unfold maskApiKey at 1. rewrite maskApiKey_length.
    destruct (Nat.leb_spec (length key) 12) as [Hle | Hgt].
    + unfold maskApiKey. apply Nat.leb_le in Hle. rewrite Hle. reflexivity.
    + unfold maskApiKey. apply Nat.leb_gt in Hgt. rewrite Hgt.
      assert (H4 : length (firstn 4 key) = 4%nat)
        by (rewrite length_firstn; apply Nat.leb_gt in Hgt; lia).
      apply Nat.leb_gt in Hgt.
      assert (Hmid : (length key - 4
                      = length (firstn 4 key ++ repeat STAR (length key - 8)))%nat).
      { rewrite length_app, H4, repeat_length. lia. }
      f_equal.
      * rewrite <- H4 at 1. apply firstn_prefix.
      * f_equal. rewrite app_assoc, Hmid. apply skipn_prefix.
Qed.

(** ** The session name of the SSE endpoint *)

Lemma remove_first_at_head (pat rest : jsstring) :
  pat ++ rest <> [] -> remove_first pat (pat ++ rest) = rest.
Proof.
  intros Hne.
  assert (Hstarts : forall p s, startsWith p (p ++ s) = true).
  { induction p as [| a p IH]; intros s; [reflexivity|].
    cbn [app startsWith]. rewrite Z.eqb_refl. apply IH. }
  destruct (pat ++ rest) as [| c r] eqn:Heq; [contradiction|].
  cbn [remove_first]. rewrite <- Heq, Hstarts. apply skipn_prefix.
Qed.

(** X15. The session name has at most 16 code units.  For a header
    [Bearer <token>] it is the first 16 code units of the token: for a
    token [mcp_<12 digits>.<secret>] that is [mcp_<12 digits>], the
    same for every secret.  Without a header it is [anonymous]. *)
Theorem sseSessionId_is_token_prefix :
  (forall authHeader, (length (sseSessionId authHeader) <= 16)%nat)
  /\ (forall token, sseSessionId (Some (BEARER ++ token)) = firstn 16 token)
  /\ (forall prefix secret,
        length prefix = 12%nat ->
        sseSessionId (Some (BEARER ++ js "mcp_" ++ prefix ++ js "." ++ secret))
        = js "mcp_" ++ prefix)
  /\ sseSessionId None = js "anonymous"
  /\ sseSessionId (Some []) = js "anonymous".
Proof.
  assert (Hbearer : forall token,
             sseSessionId (Some (BEARER ++ token)) = firstn 16 token).
  { intros token. unfold sseSessionId.
    change (BEARER ++ token) with (66 :: skipn 1 BEARER ++ token) at 1.
    cbv iota.
    change (66 :: skipn 1 BEARER ++ token) with (BEARER ++ token).
    rewrite remove_first_at_head by discriminate. reflexivity. }
  split; [|split; [exact Hbearer | split; [|split; reflexivity]]].
  - intros [[| c r] |]; unfold sseSessionId.
    + simpl. lia.
    + apply firstn_le_length.
    + simpl. lia.
  - intros prefix secret Hlen. rewrite Hbearer.
    rewrite app_assoc.
    assert (H16 : length (js "mcp_" ++ prefix) = 16%nat)
      by (rewrite length_app, Hlen; reflexivity).
    rewrite <- H16. apply firstn_prefix.
Qed.
